(** * VisionParser: a shallow embedding of the extraction pipeline

    The development follows the layout of the repository:
    [models/] (EnvConfig, OpenAIConfig, ImageFolderConfig, Config),
    [utils/] (encode_image), [services/] (ImageDataExtractor,
    DataProcessor), [main.py], and the parts of the Python standard library
    the code relies on (str methods, pathlib, base64, csv).

    Conventions.
    - A Python [str] is a [string]; every [ascii] is read as one code point
      below 256.  All characters the code tests for (whitespace, the fence
      back-tick, comma, double quote, CR, LF, the dot and the letters of the
      image extensions) are in that range.
    - A Python call that may raise is a value of [result]: [Ok v] for a normal
      return and [Raise e] for an exception instance [e] of class [Exception].
    - An object mutated in place is threaded explicitly: a method of an object
      of type [S] has type [S -> S * result A]. *)

From Stdlib Require Import ZArith Floats Ascii String List Bool Lia.
From Stdlib Require OrdersEx.
From Stdlib Require Import DecimalString.
From stdpp Require Import base gmap strings list sorting.

Set Warnings "-register-all,-inexact-float,-clear-no-such-hyp".
Local Open Scope string_scope.
Local Open Scope Z_scope.

(* ================================================================== *)
(** * Part I: definitions                                              *)
(* ================================================================== *)

(** ** Exceptions and results *)

(** The exception classes of the repository, [json.JSONDecodeError], and
    [PyException cls msg] for an instance of any other class derived from
    [Exception] (built-in or third party: [OSError], [TypeError],
    [openai.APIError], ...), identified by its class name. *)
Inductive exc : Type :=
| PyException (cls msg : string)
| JSONDecodeError (doc : string)
| ImageProcessingError (image_path : string) (original_error : exc)
| OpenAIAPIError (message : string) (original_error : option exc)
| OpenAIKeyNotFoundError
| OpenAIKeyInvalidError
| InvalidMaxTokensError (value : Z)
| InvalidTemperatureError (value : float)
| ImageFolderNotFoundError (folder_path : string)
| NoImageFilesError (folder_path : string).

Inductive result (A : Type) : Type :=
| Ok (v : A)
| Raise (e : exc).
Arguments Ok {A} v.
Arguments Raise {A} e.

Definition bind {A B} (r : result A) (k : A -> result B) : result B :=
  match r with
  | Ok v => k v
  | Raise e => Raise e
  end.

Notation "x <-! r ;; k" := (bind r (fun x => k))
  (at level 100, r at next level, right associativity).

(** [isinstance(e, json.JSONDecodeError)]. *)
Definition is_JSONDecodeError (e : exc) : bool :=
  match e with JSONDecodeError _ => true | _ => false end.



(** ** Python [str] *)

Module Str.

Definition chr (n : nat) : ascii := ascii_of_nat n.
Definition ord (c : ascii) : nat := nat_of_ascii c.

Definition TAB : ascii := chr 9.
Definition LF : ascii := chr 10.
Definition CR : ascii := chr 13.
Definition CRLF : string := String CR (String LF "").

(** [str.isspace] on one character: TAB, LF, VT, FF, CR, the separators
    FS GS RS US, SPACE, NEL and NBSP. *)
Definition isspace (c : ascii) : bool :=
  let n := ord c in
  ((9 <=? n) && (n <=? 13) || (28 <=? n) && (n <=? 32)
   || (n =? 133) || (n =? 160))%nat.

(** [s.startswith(p)] *)
Fixpoint startswith (s p : string) {struct p} : bool :=
  match p, s with
  | "", _ => true
  | String a p', String b s' => Ascii.eqb a b && startswith s' p'
  | String _ _, "" => false
  end.

Fixpoint rev_onto (s acc : string) : string :=
  match s with
  | "" => acc
  | String c s' => rev_onto s' (String c acc)
  end.

(** [s[::-1]] *)
Definition reverse (s : string) : string := rev_onto s "".

(** [s.endswith(p)] *)
Definition endswith (s p : string) : bool :=
  startswith (reverse s) (reverse p).

(** [s[n:]] for [n >= 0] *)
Fixpoint drop (n : nat) (s : string) : string :=
  match n, s with
  | O, _ => s
  | S n', String _ s' => drop n' s'
  | S _, "" => ""
  end.

(** [s[:-n]] for [n > 0] *)
Definition drop_end (n : nat) (s : string) : string :=
  reverse (drop n (reverse s)).

Fixpoint lstrip (s : string) : string :=
  match s with
  | "" => ""
  | String c s' => if isspace c then lstrip s' else s
  end.

Definition rstrip (s : string) : string := reverse (lstrip (reverse s)).

(** [s.strip()] *)
Definition strip (s : string) : string := rstrip (lstrip s).

(** [str.lower] on one character of the range: A-Z and the Latin-1 capitals
    (all of U+00C0..U+00DE but the multiplication sign) move up by 32. *)
Definition lower_char (c : ascii) : ascii :=
  let n := ord c in
  if ((65 <=? n) && (n <=? 90)
      || (192 <=? n) && (n <=? 222) && negb (n =? 215))%nat
  then chr (n + 32) else c.

(** [s.lower()] *)
Fixpoint lower (s : string) : string :=
  match s with
  | "" => ""
  | String c s' => String (lower_char c) (lower s')
  end.

(** [s.rfind(".")]: the index of the last dot, [None] for Python's -1. *)
Fixpoint rfind_dot (s : string) : option nat :=
  match s with
  | "" => None
  | String c s' =>
      match rfind_dot s' with
      | Some i => Some (S i)
      | None => if Ascii.eqb c "." then Some O else None
      end
  end.

(** [sep.join(parts)] *)
Fixpoint join (sep : string) (parts : list string) : string :=
  match parts with
  | [] => ""
  | [p] => p
  | p :: ps => p ++ sep ++ join sep ps
  end.

(** [s.split("/")] *)
Fixpoint split_slash_aux (cur : string) (s : string) : list string :=
  match s with
  | "" => [reverse cur]
  | String c s' =>
      if Ascii.eqb c "/" then reverse cur :: split_slash_aux "" s'
      else split_slash_aux (String c cur) s'
  end.

Definition split_slash (s : string) : list string := split_slash_aux "" s.

(** [bool(s)] *)
Definition truthy (s : string) : bool :=
  match s with "" => false | _ => true end.

(** Every character of the string is a space. *)
Fixpoint blank (s : string) : bool :=
  match s with
  | "" => true
  | String c s' => isspace c && blank s'
  end.

(** A string that starts with a character that is no space. *)
Definition solid_head (s : string) : bool :=
  match s with
  | "" => false
  | String c _ => negb (isspace c)
  end.

(** [s[0]] when there is one. *)
Definition first_char (s : string) : option ascii :=
  match s with
  | "" => None
  | String c _ => Some c
  end.

End Str.

(** ** pathlib (POSIX flavour) *)

Module PathLib.

(** The components of [PurePosixPath(p)] after the root: empty components
    and single dots are dropped when the path is parsed. *)
Definition tail (p : string) : list string :=
  List.filter (fun c => negb (String.eqb c "") && negb (String.eqb c "."))
              (Str.split_slash p).

(** [Path(p).name]: the last component, the empty string when there is
    none. *)
Definition name (p : string) : string := List.last (tail p) "".

(** [PurePath.suffix] of a path whose last component is [nm]:
    [i = nm.rfind(".")], and [nm[i:]] if [0 < i < len(nm) - 1], else the
    empty string. *)
Definition suffix_of_name (nm : string) : string :=
  match Str.rfind_dot nm with
  | Some i =>
      if ((0 <? i) && (i <? String.length nm - 1))%nat
      then Str.drop i nm else ""
  | None => ""
  end.

Definition suffix (p : string) : string := suffix_of_name (name p).

End PathLib.

(** ** models/env_config.py *)

Module EnvConfig.

(** [os.environ] after [load_dotenv]: a finite map from names to values. *)
Abbreviation environ := (gmap string string).

(** [EnvConfig.get(key, default=None)] is [os.environ.get(key, default)]. *)
Definition get (env : environ) (key : string) (default : option string)
  : option string :=
  match env !! key with
  | Some v => Some v
  | None => default
  end.

(** [not api_key]: true of [None] and of the empty string. *)
Definition falsy (o : option string) : bool :=
  match o with
  | None => true
  | Some s => negb (Str.truthy s)
  end.

Definition get_openai_api_key (env : environ) : result string :=
  let api_key := get env "OPENAI_API_KEY" None in
  if falsy api_key then Raise OpenAIKeyNotFoundError
  else
    let k := default "" api_key in
    if String.eqb k "your-api-key-here" then Raise OpenAIKeyInvalidError
    else if negb (Str.startswith k "sk-") then Raise OpenAIKeyInvalidError
    else Ok k.

End EnvConfig.

(** ** models/openai_config.py *)

Module OpenAIConfig.

Record t : Type := mk {
  api_key : string;
  model : string;
  max_tokens : Z;
  temperature : float
}.

(** [OpenAIConfig(api_key)] with the default model, token limit and
    temperature. *)
Definition init (key : string) : t :=
  {| api_key := key; model := "gpt-4o"; max_tokens := 2000;
     temperature := 0%float |}.

(** The [max_tokens] setter: [if value <= 0: raise ...] then the store. *)
Definition set_max_tokens (value : Z) (self : t) : t * result unit :=
  if value <=? 0 then (self, Raise (InvalidMaxTokensError value))
  else ({| api_key := api_key self; model := model self;
           max_tokens := value; temperature := temperature self |}, Ok tt).

(** The chained comparison [0.0 <= value <= 2.0] on IEEE doubles. *)
Definition in_range (value : float) : bool :=
  PrimFloat.leb 0%float value && PrimFloat.leb value 2%float.

(** The [temperature] setter: [if not 0.0 <= value <= 2.0: raise ...]. *)
Definition set_temperature (value : float) (self : t) : t * result unit :=
  if negb (in_range value) then (self, Raise (InvalidTemperatureError value))
  else ({| api_key := api_key self; model := model self;
           max_tokens := max_tokens self; temperature := value |}, Ok tt).

End OpenAIConfig.

(** ** models/image_folder_config.py *)

Module ImageFolderConfig.

(** A [Path] object is kept as its [str] form. *)
Definition Path := string.

Definition SUPPORTED_EXTENSIONS : list string :=
  [".png"; ".jpg"; ".jpeg"; ".bmp"; ".tiff"].

(** What the file system holds at the folder path: nothing, something that
    is not a directory, or a directory with the names of its entries (files
    and sub-directories alike) in the order [iterdir] yields them, which
    is arbitrary. *)
Inductive folder_state : Type :=
| Missing
| NotDirectory
| Directory (entries : list string).

(** [folder / entry] *)
Definition joinpath (folder : Path) (entry : string) : Path :=
  if String.eqb folder "." || String.eqb folder "" then entry
  else if Str.endswith folder "/" then folder ++ entry
  else folder ++ "/" ++ entry.

(** [Path.exists] and [Path.iterdir] *)
Definition exists_ (st : folder_state) : bool :=
  match st with Missing => false | _ => true end.

Definition iterdir (st : folder_state) (folder : Path) : result (list Path) :=
  match st with
  | Directory entries => Ok (List.map (joinpath folder) entries)
  | NotDirectory => Raise (PyException "NotADirectoryError" folder)
  | Missing => Raise (PyException "FileNotFoundError" folder)
  end.

(** Python's [<] on lists of strings: the first position where the two
    differ decides, and a proper prefix is smaller. *)
Fixpoint list_ltb (l1 l2 : list string) : bool :=
  match l1, l2 with
  | [], [] => false
  | [], _ :: _ => true
  | _ :: _, [] => false
  | a :: l1', b :: l2' =>
      if String.eqb a b then list_ltb l1' l2' else String.ltb a b
  end.

(** [PurePath.__lt__]: the paths are compared as the lists of their
    components, [str(p).split("/")]. *)
Definition path_ltb (p q : Path) : bool :=
  list_ltb (Str.split_slash p) (Str.split_slash q).

(** [p <= q] in the order [sorted] uses: [q] is not below [p]. *)
Definition path_le (p q : Path) : Prop := path_ltb q p = false.

#[global] Instance path_le_dec p q : Decision (path_le p q).
Proof. unfold path_le. apply _. Defined.

(** [sorted(paths)]: the stable sort by [<]. *)
Definition sorted (paths : list Path) : list Path :=
  merge_sort path_le paths.

(** [f.suffix.lower() in self.SUPPORTED_EXTENSIONS] *)
Definition is_image (f : Path) : bool :=
  bool_decide (Str.lower (PathLib.suffix f) ∈ SUPPORTED_EXTENSIONS).

Definition validate (st : folder_state) (folder : Path) : result unit :=
  if negb (exists_ st) then Raise (ImageFolderNotFoundError folder)
  else Ok tt.

Definition get_image_files (st : folder_state) (folder : Path)
  : result (list Path) :=
  _ <-! validate st folder ;;
  fs <-! iterdir st folder ;;
  let image_files := sorted (List.filter is_image fs) in
  match image_files with
  | [] => Raise (NoImageFilesError folder)
  | _ => Ok image_files
  end.

End ImageFolderConfig.

(** ** utils/image_utils.py *)

Module ImageUtils.

Definition alphabet : string :=
  "ABCDEFGHIJKLMNOPQRSTUVWXYZabcdefghijklmnopqrstuvwxyz0123456789+/".

Definition digit (n : nat) : string :=
  match String.get n alphabet with
  | Some c => String c ""
  | None => ""
  end.

(** [base64.b64encode(data).decode("utf-8")] on a byte string. *)
Fixpoint b64encode (data : string) : string :=
  match data with
  | "" => ""
  | String a "" =>
      let a := Str.ord a in
      (digit (a / 4) ++ digit (a mod 4 * 16) ++ "==")%nat
  | String a (String b "") =>
      let a := Str.ord a in let b := Str.ord b in
      (digit (a / 4) ++ digit (a mod 4 * 16 + b / 16)
       ++ digit (b mod 16 * 4) ++ "=")%nat
  | String a (String b (String c rest)) =>
      let a := Str.ord a in let b := Str.ord b in let c := Str.ord c in
      (digit (a / 4) ++ digit (a mod 4 * 16 + b / 16)
       ++ digit (b mod 16 * 4 + c / 64) ++ digit (c mod 64))%nat
      ++ b64encode rest
  end.

End ImageUtils.

(** ** models/app_config.py *)

Module Config.

(** The facade: the folder path, the API parameters, the output file and
    the ordered field names. *)
Record t : Type := mk {
  images : ImageFolderConfig.Path;
  openai : OpenAIConfig.t;
  output_file : string;
  extract_fields : list string
}.

Definition default_fields : list string :=
  ["filename"; "email"; "firstname"; "name"].

End Config.

(** ** json *)

(** The values [json.loads] returns. *)
Inductive json : Type :=
| JNone
| JBool (b : bool)
| JInt (n : Z)
| JFloat (x : float)
| JStr (s : string)
| JList (items : list json)
| JDict (entries : gmap string json).

(** ** services/extractor.py *)

Module Extractor.

(** One Extracted Record as the extractor builds it. *)
Abbreviation record := (gmap string json).

(** The calls that leave the repository.  [Failed cls msg] is an exception
    of class [cls] raised by the callee: the [OSError] family for the file
    system, the client library's own errors for the API.  Neither callee
    raises [json.JSONDecodeError], the error of [json.loads]. *)
Inductive answer (A : Type) : Type :=
| Returned (v : A)
| Failed (cls msg : string).
Arguments Returned {A} v.
Arguments Failed {A} cls msg.

Definition call {A} (a : answer A) : result A :=
  match a with
  | Returned v => Ok v
  | Failed cls msg => Raise (PyException cls msg)
  end.

Record Message : Type := { content : option string }.
Record Choice : Type := { message : Message }.
Record Response : Type := { choices : list Choice }.

Record Request : Type := {
  req_model : string;
  req_text : string;
  req_image_url : string;
  req_max_tokens : Z;
  req_temperature : float
}.

Record World : Type := {
  (** [open(path, "rb").read()] *)
  read_bytes : string -> answer string;
  (** [client.chat.completions.create(...)] *)
  create : Request -> answer Response;
  (** [json.loads(text)]: the value, or [None] when the call raises
      [json.JSONDecodeError]. *)
  json_loads : string -> option json
}.

Definition NL : string := String Str.LF "".
Definition quoted (s : string) : string :=
  String (Str.chr 34) s ++ String (Str.chr 34) "".

(** The fixed instruction of the request. *)
Definition PROMPT : string :=
  "This image contains a table with three columns: Email, First name, and Name (Full name)."
  ++ NL ++ NL ++
  "Please extract the following information from all rows in the table (excluding the header row):"
  ++ NL ++ "1. Email (email address)"
  ++ NL ++ "2. First name"
  ++ NL ++ "3. Name (full name)"
  ++ NL ++ NL ++
  "Return in the following JSON array format (JSON only, no explanation):"
  ++ NL ++ "["
  ++ NL ++ "  {"
  ++ NL ++ "    " ++ quoted "email" ++ ": " ++ quoted "extracted email address 1" ++ ","
  ++ NL ++ "    " ++ quoted "firstname" ++ ": " ++ quoted "extracted first name 1" ++ ","
  ++ NL ++ "    " ++ quoted "name" ++ ": " ++ quoted "extracted full name 1"
  ++ NL ++ "  }"
  ++ NL ++ "]"
  ++ NL ++ NL ++
  "Extract all rows. If no data is found, return an empty array.".

(** [encode_image(image_path)] of utils/image_utils.py *)
Definition encode_image (w : World) (image_path : string) : result string :=
  data <-! call (read_bytes w image_path) ;;
  Ok (ImageUtils.b64encode data).

Definition request (cfg : Config.t) (base64_image : string) : Request :=
  {| req_model := OpenAIConfig.model (Config.openai cfg);
     req_text := PROMPT;
     req_image_url := "data:image/png;base64," ++ base64_image;
     req_max_tokens := OpenAIConfig.max_tokens (Config.openai cfg);
     req_temperature := OpenAIConfig.temperature (Config.openai cfg) |}.

(** [response.choices[0].message.content.strip()] *)
Definition first_content (r : Response) : result string :=
  match choices r with
  | [] => Raise (PyException "IndexError" "list index out of range")
  | c :: _ =>
      match content (message c) with
      | None =>
          Raise (PyException "AttributeError"
                   "'NoneType' object has no attribute 'strip'")
      | Some text => Ok (Str.strip text)
      end
  end.

Definition FENCE : string := "```".
Definition FENCE_JSON : string := "```json".

(** The three [if]s that remove the markers, and the second [strip]. *)
Definition remove_markers (content : string) : string :=
  let content :=
    if Str.startswith content FENCE_JSON then Str.drop 7 content
    else content in
  let content :=
    if Str.startswith content FENCE then Str.drop 3 content else content in
  let content :=
    if Str.endswith content FENCE then Str.drop_end 3 content
    else content in
  Str.strip content.

(** [for data in data_list]: what iterating the parsed value yields.  A
    list yields its items, a dict its keys, a string its characters; the
    other values are not iterable. *)
Definition iterate (data_list : json) : result (list json) :=
  match data_list with
  | JList items => Ok items
  | JDict entries => Ok (JStr <$> (map_to_list entries).*1)
  | JStr s => Ok ((fun c => JStr (String c "")) <$> list_ascii_of_string s)
  | _ => Raise (PyException "TypeError" "object is not iterable")
  end.

(** [data.get(key, "")] *)
Definition get (data : json) (key : string) : result json :=
  match data with
  | JDict entries => Ok (default (JStr "") (entries !! key))
  | _ => Raise (PyException "AttributeError" "object has no attribute 'get'")
  end.

(** The dict display appended for one parsed item. *)
Definition format_item (image_path : string) (data : json) : result record :=
  let filename := JStr (PathLib.name image_path) in
  email <-! get data "email" ;;
  firstname <-! get data "firstname" ;;
  name <-! get data "name" ;;
  Ok (<["name" := name]>
        (<["firstname" := firstname]>
           (<["email" := email]> (<["filename" := filename]> ∅)))).

(** The loop [for data in data_list: results.append(...)]. *)
Fixpoint format_items (image_path : string) (items : list json)
  : result (list record) :=
  match items with
  | [] => Ok []
  | data :: rest =>
      r <-! format_item image_path data ;;
      rs <-! format_items image_path rest ;;
      Ok (r :: rs)
  end.

(** [json.loads(content)] *)
Definition loads (w : World) (text : string) : result json :=
  match json_loads w text with
  | Some v => Ok v
  | None => Raise (JSONDecodeError text)
  end.

(** The cleaned text: the body of the [try] up to the call of
    [json.loads]. *)
Definition cleaned_text (w : World) (cfg : Config.t) (image_path : string)
  : result string :=
  base64_image <-! encode_image w image_path ;;
  response <-! call (create w (request cfg base64_image)) ;;
  content <-! first_content response ;;
  Ok (remove_markers content).

(** The body of the [try]. *)
Definition try_body (w : World) (cfg : Config.t) (image_path : string)
  : result (list record) :=
  content <-! cleaned_text w cfg image_path ;;
  data_list <-! loads w content ;;
  items <-! iterate data_list ;;
  format_items image_path items.

(** The two [except] clauses, in order. *)
Definition extract_all_info (w : World) (cfg : Config.t)
    (image_path : string) : result (list record) :=
  match try_body w cfg image_path with
  | Ok results => Ok results
  | Raise e =>
      if is_JSONDecodeError e
      then Raise (OpenAIAPIError ("JSON parse error: " ++ image_path) (Some e))
      else Raise (ImageProcessingError image_path e)
  end.

End Extractor.

(** ** csv (the [excel] dialect, which [csv.DictWriter] and [csv.reader] use
    by default)

    delimiter [,], quotechar the double quote, [doublequote] on, no
    escapechar, lineterminator CR LF, [QUOTE_MINIMAL], [skipinitialspace]
    and [strict] off.  The definitions follow [Modules/_csv.c] and
    [Lib/csv.py] of CPython 3.11 and later. *)

Module Csv.

Definition delimiter : ascii := ",".
Definition quotechar : ascii := Str.chr 34.
Definition lineterminator : string := Str.CRLF.

Definition is_newline (c : ascii) : bool :=
  Ascii.eqb c Str.LF || Ascii.eqb c Str.CR.

(** *** The writer *)

(** The test that opens the special case of [join_append_data]: the
    character is the delimiter, the quote character or occurs in the line
    terminator. *)
Definition special (c : ascii) : bool :=
  Ascii.eqb c delimiter || Ascii.eqb c quotechar || is_newline c.

(** The loop of [join_append_data] over the characters of one field: the
    characters copied (a quote character is doubled) and whether the field
    has to be quoted. *)
Fixpoint copy_field (field : string) (quoted : bool) : string * bool :=
  match field with
  | "" => ("", quoted)
  | String c field' =>
      let '(rest, q) :=
        copy_field field' (if special c then true else quoted) in
      (if Ascii.eqb c quotechar then String quotechar (String c rest)
       else String c rest, q)
  end.

(** The record buffer of the writer. *)
Record writer : Type := { rec : string; num_fields : nat }.

Definition join_reset : writer := {| rec := ""; num_fields := 0 |}.

(** [join_append(self, field, quoted)]; [field = None] is the C null
    pointer (no data). *)
Definition join_append (self : writer) (field : option string)
    (quoted : bool) : writer :=
  let '(data, q) := copy_field (default "" field) quoted in
  let sep :=
    if (0 <? num_fields self)%nat then String delimiter "" else "" in
  let body :=
    if q then String quotechar data ++ String quotechar "" else data in
  {| rec := rec self ++ sep ++ body; num_fields := S (num_fields self) |}.

(** [writer.writerow(fields)]: the line handed to [write]. *)
Definition writerow (fields : list string) : string :=
  let self :=
    fold_left (fun w field => join_append w (Some field) false)
              fields join_reset in
  let self :=
    if (0 <? num_fields self)%nat && (String.length (rec self) =? 0)%nat
    then join_append {| rec := rec self; num_fields := num_fields self - 1 |}
                     None true
    else self in
  rec self ++ lineterminator.

(** *** The reader *)

Inductive parser_state : Type :=
| START_RECORD
| START_FIELD
| IN_FIELD
| IN_QUOTED_FIELD
| QUOTE_IN_QUOTED_FIELD
| EAT_CRNL.

#[global] Instance parser_state_eq_dec : EqDecision parser_state.
Proof. solve_decision. Defined.

(** The argument of [parse_process_char]: a character of the line, or the
    end-of-line mark the reader feeds after every line. *)
Inductive input : Type :=
| Char (c : ascii)
| EOL.

Record reader : Type := {
  state : parser_state;
  field : string;
  fields : list string
}.

Definition parse_reset : reader :=
  {| state := START_RECORD; field := ""; fields := [] |}.

Definition set_state (st : parser_state) (self : reader) : reader :=
  {| state := st; field := field self; fields := fields self |}.

Definition parse_save_field (self : reader) : reader :=
  {| state := state self; field := "";
     fields := fields self ++ [field self] |}.

(** The guard of [parse_add_char] on the length of a field
    ([csv.field_size_limit]) bounds the resources of the reading process
    and is left out, like the limits of memory. *)
Definition parse_add_char (self : reader) (c : ascii) : reader :=
  {| state := state self; field := field self ++ String c "";
     fields := fields self |}.

Definition after_line (c : input) : parser_state :=
  match c with EOL => START_RECORD | Char _ => EAT_CRNL end.

Definition ends_record (c : input) : bool :=
  match c with EOL => true | Char a => is_newline a end.

(** [case START_FIELD] *)
Definition start_field (self : reader) (c : input) : reader :=
  if ends_record c then set_state (after_line c) (parse_save_field self)
  else match c with
       | EOL => self
       | Char a =>
           if Ascii.eqb a quotechar then set_state IN_QUOTED_FIELD self
           else if Ascii.eqb a delimiter then parse_save_field self
           else set_state IN_FIELD (parse_add_char self a)
       end.

Definition parse_process_char (self : reader) (c : input) : result reader :=
  match state self with
  | START_RECORD =>
      match c with
      | EOL => Ok self
      | Char a =>
          if is_newline a then Ok (set_state EAT_CRNL self)
          else Ok (start_field (set_state START_FIELD self) c)
      end
  | START_FIELD => Ok (start_field self c)
  | IN_FIELD =>
      if ends_record c
      then Ok (set_state (after_line c) (parse_save_field self))
      else match c with
           | EOL => Ok self
           | Char a =>
               if Ascii.eqb a delimiter
               then Ok (set_state START_FIELD (parse_save_field self))
               else Ok (parse_add_char self a)
           end
  | IN_QUOTED_FIELD =>
      match c with
      | EOL => Ok self
      | Char a =>
          if Ascii.eqb a quotechar
          then Ok (set_state QUOTE_IN_QUOTED_FIELD self)
          else Ok (parse_add_char self a)
      end
  | QUOTE_IN_QUOTED_FIELD =>
      match c with
      | Char a =>
          if Ascii.eqb a quotechar
          then Ok (set_state IN_QUOTED_FIELD (parse_add_char self a))
          else if Ascii.eqb a delimiter
          then Ok (set_state START_FIELD (parse_save_field self))
          else if is_newline a
          then Ok (set_state EAT_CRNL (parse_save_field self))
          else Ok (set_state IN_FIELD (parse_add_char self a))
      | EOL => Ok (set_state START_RECORD (parse_save_field self))
      end
  | EAT_CRNL =>
      match c with
      | EOL => Ok (set_state START_RECORD self)
      | Char a =>
          if is_newline a then Ok self
          else Raise (PyException "_csv.Error"
                        "new-line character seen in unquoted field")
      end
  end.

(** The inner loop of [Reader_iternext] over the characters of a line. *)
Fixpoint feed_chars (self : reader) (line : string) : result reader :=
  match line with
  | "" => Ok self
  | String c line' =>
      self' <-! parse_process_char self (Char c) ;;
      feed_chars self' line'
  end.

Definition feed_line (self : reader) (line : string) : result reader :=
  self' <-! feed_chars self line ;;
  parse_process_char self' EOL.

(** The end of the input inside a record: the field in progress is saved
    and the record returned when a field has characters or a quoted field
    is open; otherwise the iteration stops. *)
Definition at_end_of_input (self : reader) : list (list string) :=
  if negb (String.length (field self) =? 0)%nat
     || bool_decide (state self = IN_QUOTED_FIELD)
  then [fields (parse_save_field self)]
  else [].

(** [list(csv.reader(lines))]: [Reader_iternext] until the input is
    exhausted; a record is complete when the state is [START_RECORD] after
    the end-of-line mark. *)
Fixpoint read_rows (self : reader) (lines : list string)
  : result (list (list string)) :=
  match lines with
  | [] => Ok (at_end_of_input self)
  | line :: rest =>
      self' <-! feed_line self line ;;
      if bool_decide (state self' = START_RECORD)
      then rows <-! read_rows parse_reset rest ;; Ok (fields self' :: rows)
      else read_rows self' rest
  end.

(** A line of a text file opened with [newline=""] ends after LF and after
    a CR that no LF follows. *)
Definition ends_line (c : ascii) (rest : string) : bool :=
  Ascii.eqb c Str.LF
  || Ascii.eqb c Str.CR && negb (Str.startswith rest (String Str.LF "")).

(** The lines the file object yields, endings kept; [cur] holds the
    characters of the line in progress, last first. *)
Fixpoint readlines_from (cur : string) (text : string) : list string :=
  match text with
  | "" => match cur with "" => [] | _ => [Str.reverse cur] end
  | String c text' =>
      if ends_line c text'
      then Str.reverse (String c cur) :: readlines_from "" text'
      else readlines_from (String c cur) text'
  end.

Definition readlines (text : string) : list string := readlines_from "" text.

(** [list(csv.reader(f))] for a file [f] with the given text, opened with
    [newline=""]. *)
Definition read (text : string) : result (list (list string)) :=
  read_rows parse_reset (readlines text).

(** *** DictWriter *)

(** [repr] of a field name in the message of the error below, in the
    single-quoted form (the form of a name without quotes, backslashes or
    control characters). *)
Definition repr (s : string) : string := "'" ++ s ++ "'".

(** [DictWriter._dict_to_list] with [extrasaction="raise"] and
    [restval=""].  The message lists the wrong names in the order a set is
    iterated, which Python leaves open. *)
Definition dict_to_list (fieldnames : list string)
    (rowdict : gmap string string) : result (list string) :=
  let wrong_fields : gset string := dom rowdict ∖ list_to_set fieldnames in
  if bool_decide (wrong_fields = ∅)
  then Ok ((fun key => default "" (rowdict !! key)) <$> fieldnames)
  else Raise (PyException "ValueError"
                ("dict contains fields not in fieldnames: "
                 ++ Str.join ", " (repr <$> elements wrong_fields))).

(** [DictWriter.writerow(rowdict)]: the line written. *)
Definition dict_writerow (fieldnames : list string)
    (rowdict : gmap string string) : result string :=
  row <-! dict_to_list fieldnames rowdict ;;
  Ok (writerow row).

(** [DictWriter.writeheader()]: the row is [dict(zip(fieldnames,
    fieldnames))]. *)
Definition writeheader (fieldnames : list string) : result string :=
  dict_writerow fieldnames (list_to_map (zip fieldnames fieldnames)).

End Csv.

(** ** services/processor.py *)

Module Processor.

(** One Extracted Record as the processor receives it: [Dict[str, str]], the
    type [process_images], [_log_sample_records] and [save_to_csv] are
    annotated with.  On such records the calls to the logger, those inside
    the [try] included, return normally. *)
Abbreviation record := (gmap string string).

Record ProcessingResult : Type := {
  total_images : Z;
  successful_images : Z;
  failed_images : list string;
  total_records : Z;
  all_results : list record
}.




(** What the loop hands to the logger and to the progress callback. *)
Inductive event : Type :=
| LogProcessing (i total : nat) (name : string)
| LogExtracted (count : nat)
| LogSample (j : nat) (text : string)
| LogMore (count : nat)
| LogNoRecords
| LogError (e : exc)
| Progress (i total : nat) (name : string).

(** [' - '.join(filter(None, display_fields))] with the first two
    configured fields. *)
Definition sample_text (fields : list string) (r : record) : string :=
  let display_fields :=
    (fun field => default "" (r !! field)) <$> take 2 fields in
  Str.join " - " (List.filter Str.truthy display_fields).

(** The loop of [_log_sample_records]: one line for each record shown,
    numbered from [j]. *)
Fixpoint sample_lines (fields : list string) (j : nat) (records : list record)
  : list event :=
  match records with
  | [] => []
  | r :: rest =>
      LogSample j (sample_text fields r) :: sample_lines fields (S j) rest
  end.

(** [_log_sample_records(records, max_display=3)] *)
Definition log_sample_records (fields : list string) (records : list record)
  : list event :=
  sample_lines fields 1 (take 3 records)
  ++ (if (3 <? length records)%nat then [LogMore (length records - 3)]
      else []).

(** [if b: ...] around calls to the logger or the callback. *)
Definition when (b : bool) (evs : list event) : list event :=
  if b then evs else [].

Section process_images.

(** The extraction service: a call takes the path string and may change
    the state of the world (the API answers as it pleases). *)
Context {W : Type}.
Variable extractor : string -> W -> W * result (list record).
Variable fields : list string.
Variable verbose : bool.
(** [progress_callback is not None]; the callback is seen through the
    calls it receives. *)
Variable progress_callback : bool.

(** The local variables of [process_images] and the world. *)
Record locals : Type := {
  l_all_results : list record;
  l_total_records : Z;
  l_failed_images : list string;
  l_events : list event;
  l_world : W
}.

(** The body of the [for] loop for the [i]-th image of [total]. *)
Definition body (total i : nat) (image_file : string) (st : locals)
  : locals :=
  let name := PathLib.name image_file in
  let ev0 := when verbose [LogProcessing i total name] in
  let '(w, outcome) := extractor image_file (l_world st) in
  let st' :=
    match outcome with
    | Ok records =>
        match records with
        | _ :: _ =>
            {| l_all_results := l_all_results st ++ records;
               l_total_records :=
                 l_total_records st + Z.of_nat (length records);
               l_failed_images := l_failed_images st;
               l_events :=
                 l_events st ++ ev0
                 ++ when verbose (LogExtracted (length records)
                                  :: log_sample_records fields records);
               l_world := w |}
        | [] =>
            {| l_all_results := l_all_results st;
               l_total_records := l_total_records st;
               l_failed_images := l_failed_images st ++ [name];
               l_events := l_events st ++ ev0 ++ when verbose [LogNoRecords];
               l_world := w |}
        end
    | Raise e =>
        {| l_all_results := l_all_results st;
           l_total_records := l_total_records st;
           l_failed_images := l_failed_images st ++ [name];
           l_events := l_events st ++ ev0 ++ when verbose [LogError e];
           l_world := w |}
    end in
  {| l_all_results := l_all_results st';
     l_total_records := l_total_records st';
     l_failed_images := l_failed_images st';
     l_events :=
       l_events st' ++ when progress_callback [Progress i total name];
     l_world := l_world st' |}.

(** [for i, image_file in enumerate(image_files, 1)]: the images from the
    [i]-th on. *)
Fixpoint loop (total i : nat) (image_files : list string) (st : locals)
  : locals :=
  match image_files with
  | [] => st
  | image_file :: rest => loop total (S i) rest (body total i image_file st)
  end.

(** [process_images]: the result, the events and the world afterwards.
    An image file is given by its path string. *)
Definition process_images (image_files : list string) (w : W)
  : ProcessingResult * list event * W :=
  let total := length image_files in
  let st :=
    loop total 1 image_files
         {| l_all_results := []; l_total_records := 0;
            l_failed_images := []; l_events := []; l_world := w |} in
  ({| total_images := Z.of_nat total;
      successful_images :=
        Z.of_nat total - Z.of_nat (length (l_failed_images st));
      failed_images := l_failed_images st;
      total_records := l_total_records st;
      all_results := l_all_results st |},
   l_events st, l_world st).

(** The outcomes of the calls to the extractor, image by image, when the
    images are processed in order from world [w]. *)
Fixpoint outcomes (image_files : list string) (w : W)
  : list (result (list record)) :=
  match image_files with
  | [] => []
  | image_file :: rest =>
      let '(w', outcome) := extractor image_file w in
      outcome :: outcomes rest w'
  end.

End process_images.

(** The extractor raised, or returned no record. *)
Definition failed {A} (outcome : result (list A)) : bool :=
  match outcome with
  | Ok (_ :: _) => false
  | Ok [] => true
  | Raise _ => true
  end.

(** The files of the file system, by path, with their text. *)
Abbreviation files := (gmap string string).

(** [csvfile.write(text)] on the open output file. *)
Definition write (path text : string) (fs : files) : files :=
  alter (fun old => old ++ text) path fs.

(** The loop [for result in results: writer.writerow(result)]; an
    exception leaves the [with] block, which closes the file with what
    was written so far. *)
Fixpoint write_rows (path : string) (fieldnames : list string)
    (results : list record) (fs : files) : files * result unit :=
  match results with
  | [] => (fs, Ok tt)
  | r :: rest =>
      match Csv.dict_writerow fieldnames r with
      | Raise e => (fs, Raise e)
      | Ok line => write_rows path fieldnames rest (write path line fs)
      end
  end.

(** [save_to_csv]: [open(output_file, "w", newline="")] creates or
    truncates the file (taken to succeed), then the header and the
    rows. *)
Definition save_to_csv (output_file : string) (fieldnames : list string)
    (results : list record) (fs : files) : files * result unit :=
  let fs := <[output_file := ""]> fs in
  match Csv.writeheader fieldnames with
  | Raise e => (fs, Raise e)
  | Ok line =>
      write_rows output_file fieldnames results (write output_file line fs)
  end.

End Processor.

(** ** The vocabulary of the statements *)

Section env_config_terms.

Import EnvConfig.

(** The name of the secret and the placeholder value of the template. *)
Definition KEY : string := "OPENAI_API_KEY".

Definition PLACEHOLDER : string := "your-api-key-here".

End env_config_terms.

Section openai_config_terms.

Import OpenAIConfig.

(** The object after an accepted write. *)
Definition with_max_tokens (self : t) (v : Z) : t :=
  {| api_key := api_key self; model := model self; max_tokens := v;
     temperature := temperature self |}.

Definition with_temperature (self : t) (v : float) : t :=
  {| api_key := api_key self; model := model self;
     max_tokens := max_tokens self; temperature := v |}.

End openai_config_terms.

Section success_rate_terms.

Import Processor.


End success_rate_terms.

Section image_folder_terms.

Import ImageFolderConfig.

(** The folder of the test of [get_image_files]. *)
Definition demo_entries : list string :=
  ["test1.png"; "test2.jpg"; "test3.txt"].

End image_folder_terms.

(** The base names the images contribute to [failed_images], given the
    outcome of the extractor for each. *)
Fixpoint failed_names (image_files : list string)
    (outs : list (result (list Processor.record))) : list string :=
  match image_files, outs with
  | image_file :: files', out :: outs' =>
      (if Processor.failed out then [PathLib.name image_file] else [])
      ++ failed_names files' outs'
  | _, _ => []
  end.

(** The records an outcome contributes to [all_results]. *)
Definition records_of (out : result (list Processor.record))
  : list Processor.record :=
  match out with
  | Ok records => records
  | Raise _ => []
  end.

(** The world after the extractor was called on every image in order. *)
Fixpoint world_after {W : Type}
    (extractor : string -> W -> W * result (list Processor.record))
    (image_files : list string) (w : W) : W :=
  match image_files with
  | [] => w
  | image_file :: rest =>
      world_after extractor rest (extractor image_file w).1
  end.

Section extractor_terms.

Import Str Extractor.

(** The text [t] between an opening and a closing fence, with whitespace
    [ws1] .. [ws4] around the fences. *)
Definition fenced (opening ws1 ws2 ws3 ws4 t : string) : string :=
  ws1 ++ opening ++ ws2 ++ t ++ ws3 ++ FENCE ++ ws4.

(** A JSON-array text: stripped, it starts with an opening bracket and ends
    with a closing one. *)
Definition json_array_text (t : string) : bool :=
  startswith (strip t) "[" && endswith (strip t) "]".

(** The world [w] with an API that answers [text] as the content of the
    first choice, followed by the choices [more]. *)
Definition respond (w : World) (text : string) (more : list Choice) : World :=
  {| read_bytes := read_bytes w;
     create := fun _ =>
       Returned {| choices := {| message := {| content := Some text |} |}
                              :: more |};
     json_loads := json_loads w |}.

(** The array of the example: one object with an email. *)
Definition array_example : string :=
  "[{" ++ quoted "email" ++ ":" ++ quoted "a@b.com" ++ "}]".

(** Worlds, a configuration and parsed objects for the examples. *)
Definition demo_world : World :=
  {| read_bytes := fun _ => Returned "PNG";
     create := fun _ => Failed "APIConnectionError" "Connection error.";
     json_loads := fun text =>
       if String.eqb text array_example
       then Some (JList [JDict {["email" := JStr "a@b.com"]}])
       else None |}.

Definition demo_config : Config.t :=
  {| Config.images := "images"; Config.openai := OpenAIConfig.init "sk-test";
     Config.output_file := "extracted_data_gpt_all.csv";
     Config.extract_fields := Config.default_fields |}.





End extractor_terms.

Section csv_terms.

Import Str Csv Processor.

(** [not s] *)
Definition is_empty (s : string) : bool :=
  match s with "" => true | _ => false end.

(** The reader run on the text itself: the end-of-line mark is fed after
    every character that ends a line. *)
Fixpoint scan (self : reader) (text : string) : result (list (list string)) :=
  match text with
  | "" => Ok (at_end_of_input self)
  | String c text' =>
      self1 <-! parse_process_char self (Char c) ;;
      if ends_line c text' || is_empty text'
      then self2 <-! parse_process_char self1 EOL ;;
           if bool_decide (state self2 = START_RECORD)
           then rows <-! scan parse_reset text' ;; Ok (fields self2 :: rows)
           else scan self2 text'
      else scan self1 text'
  end.

(** The characters of a field as the writer copies them: a quote is
    doubled. *)
Fixpoint escape (field : string) : string :=
  match field with
  | "" => ""
  | String c field' =>
      if Ascii.eqb c quotechar then String quotechar (String c (escape field'))
      else String c (escape field')
  end.

(** The field holds a character that forces the quotes. *)
Fixpoint must_quote (field : string) : bool :=
  match field with
  | "" => false
  | String c field' => special c || must_quote field'
  end.

(** One field as it stands in the line. *)
Definition encode (field : string) : string :=
  if must_quote field
  then String quotechar (escape field) ++ String quotechar ""
  else field.

(** The fields after the first, each behind its delimiter. *)
Fixpoint encode_more (fields : list string) : string :=
  match fields with
  | [] => ""
  | f :: fs => String delimiter (encode f) ++ encode_more fs
  end.

(** The reader in state [st] with the field [f] in progress and the fields
    [fs] saved. *)
Definition mk (st : parser_state) (f : string) (fs : list string) : reader :=
  {| state := st; field := f; fields := fs |}.

(** The states in which a field starts. *)
Definition starting (st : parser_state) : Prop :=
  st = START_RECORD \/ st = START_FIELD.

(** The reader after the characters of field [f], which started in state
    [st] with the fields [flds] behind it. *)
Definition after_field (st : parser_state) (f : string) (flds : list string)
  : reader :=
  if must_quote f then mk QUOTE_IN_QUOTED_FIELD f flds
  else match f with
       | "" => mk st "" flds
       | _ => mk IN_FIELD f flds
       end.

(** The text of a sequence of rows. *)
Fixpoint rows_text (rows : list (list string)) : string :=
  match rows with
  | [] => ""
  | row :: rows' => writerow row ++ rows_text rows'
  end.

(** The row of a record: the value of every configured field, the empty
    string for a field the record lacks. *)
Definition row_of (fieldnames : list string) (r : record) : list string :=
  (fun key => default "" (r !! key)) <$> fieldnames.

(** Every key of the record is a configured field. *)
Definition within (fieldnames : list string) (r : record) : Prop :=
  dom r ⊆ (list_to_set fieldnames : gset string).

(** Records for the examples: values with a comma and with quotes, a record
    that lacks two fields, and a record with a key that is no field. *)
Definition demo_records : list record :=
  [ {[ "filename" := "a.png"; "email" := "ann@example.com";
       "firstname" := "Ann"; "name" := "Lee, Ann" ]};
    {[ "filename" := "b.png"; "name" := Extractor.quoted "Bo" ]} ].

Definition demo_extra : record :=
  {[ "filename" := "c.png"; "phone" := "555" ]}.

End csv_terms.

Section test_terms.

Import Extractor.

(** The mocked client and decoder of tests/test_services.py: the API answers
    [text], and [json.loads] knows the empty array. *)
Definition test_world (encoded : answer string) (text : string) : World :=
  {| read_bytes := fun _ => encoded;
     create := fun _ =>
       Returned {| choices := [ {| message := {| content := Some text |} |} ] |};
     json_loads := fun doc =>
       if String.eqb doc "[]" then Some (JList []) else None |}.

(** The mocked extractor of the processor tests: the outcomes are served in
    order, one for each call. *)
Definition test_extractor (image_file : string)
    (pending : list (result (list Processor.record)))
  : list (result (list Processor.record)) * result (list Processor.record) :=
  match pending with
  | [] => ([], Raise (PyException "StopIteration" ""))
  | out :: rest => (rest, out)
  end.

Definition test_record : Processor.record :=
  {[ "email" := "test@example.com"; "firstname" := "John";
     "name" := "John Doe" ]}.

Definition test_row : Processor.record :=
  <["filename" := "test.png"]> test_record.

End test_terms.

(** ** More vocabulary: the processor and the output file *)

Section processor_more_terms.

Import Processor.

(** The calls the progress callback received, in order. *)
Definition progress_calls (evs : list event) : list (nat * nat * string) :=
  omap (fun ev => match ev with
                  | Progress i total name => Some (i, total, name)
                  | _ => None
                  end) evs.

(** [(i, total, image_file.name)] for the images of
    [enumerate(image_files, i)]. *)
Fixpoint enumerate_names (total i : nat) (image_files : list string)
  : list (nat * nat * string) :=
  match image_files with
  | [] => []
  | image_file :: rest =>
      (i, total, PathLib.name image_file) :: enumerate_names total (S i) rest
  end.


(** What [save_to_csv] appends after the header, and how it ends: the lines
    of the records up to the first one [DictWriter] rejects. *)
Fixpoint rows_written (fieldnames : list string) (results : list record)
  : string * result unit :=
  match results with
  | [] => ("", Ok tt)
  | r :: rest =>
      match Csv.dict_writerow fieldnames r with
      | Raise e => ("", Raise e)
      | Ok line =>
          let '(text, res) := rows_written fieldnames rest in
          (line ++ text, res)
      end
  end.

End processor_more_terms.

(** ** More vocabulary: the extractor *)

Section extractor_more_terms.

Import Str Extractor.


(** [isinstance(v, dict)] *)
Definition is_dict (v : json) : bool :=
  match v with JDict _ => true | _ => false end.

(** A response text with optional fences: [opening] is empty or one of the
    two opening fences, [closing] is empty or the closing fence. *)
Definition wrapped (opening closing ws1 ws2 ws3 ws4 t : string) : string :=
  ws1 ++ opening ++ ws2 ++ t ++ ws3 ++ closing ++ ws4.

(** A world whose API answers [text], which [json.loads] parses to [v]. *)
Definition world_parsing (text : string) (v : json) : World :=
  {| read_bytes := fun _ => Returned "PNG";
     create := fun _ =>
       Returned {| choices := [ {| message := {| content := Some text |} |} ] |};
     json_loads := fun s => if String.eqb s text then Some v else None |}.

End extractor_more_terms.

(** ** More vocabulary: the image folder *)

Section image_folder_more_terms.

(** The name of a directory entry: not empty, not the single dot, and
    without a slash. *)
Definition entry_name (e : string) : bool :=
  negb (String.eqb e "") && negb (String.eqb e ".")
  && forallb (fun c => negb (Ascii.eqb c "/")) (list_ascii_of_string e).

(** The extension of a file name is a supported one. *)
Definition image_name (e : string) : bool :=
  bool_decide (Str.lower (PathLib.suffix_of_name e)
               ∈ ImageFolderConfig.SUPPORTED_EXTENSIONS).

End image_folder_more_terms.

(** ** models/openai_config.py: the model setter and the masked key *)

Module OpenAIConfigOps.

Import OpenAIConfig.

(** The [model] setter stores the value as it is. *)
Definition set_model (value : string) (self : t) : t * result unit :=
  ({| api_key := api_key self; model := value;
      max_tokens := max_tokens self; temperature := temperature self |},
   Ok tt).

(** [s[-n:]] for [n > 0]: the last [n] characters, the whole string when it
    is shorter. *)
Definition last_chars (n : nat) (s : string) : string :=
  Str.drop (String.length s - n) s.

Definition get_api_key_masked (self : t) : string :=
  if (4 <? String.length (api_key self))%nat
  then "***" ++ last_chars 4 (api_key self)
  else "***".

(** An assignment to one of the three properties with a setter. *)
Inductive assignment : Type :=
| SetModel (value : string)
| SetMaxTokens (value : Z)
| SetTemperature (value : float).

Definition assign (a : assignment) (self : t) : t * result unit :=
  match a with
  | SetModel value => set_model value self
  | SetMaxTokens value => set_max_tokens value self
  | SetTemperature value => set_temperature value self
  end.

(** The assignments in order, each one attempted whatever became of the
    ones before it. *)
Fixpoint assign_all (l : list assignment) (self : t) : t :=
  match l with
  | [] => self
  | a :: rest => assign_all rest (assign a self).1
  end.

(** The assignment is one its setter accepts. *)
Definition accepted (a : assignment) : bool :=
  match a with
  | SetModel _ => true
  | SetMaxTokens value => 0 <? value
  | SetTemperature value => in_range value
  end.

(** The parameters are ones the setters would accept. *)
Definition valid (self : t) : bool :=
  (0 <? max_tokens self) && in_range (temperature self).

End OpenAIConfigOps.

(** ** More vocabulary: the image encoder *)

Section image_utils_terms.

Import ImageUtils.

(** A character of the base64 alphabet, or the padding character. *)
Definition b64_char (c : ascii) : bool :=
  existsb (Ascii.eqb c) (list_ascii_of_string (alphabet ++ "=")).

(** The length of the encoding of [n] bytes: four characters for every
    group of three bytes, the last group padded. *)
Definition b64_length (n : nat) : nat := (4 * ((n + 2) / 3))%nat.

(** The numbers of the 64 digits. *)
Definition sextets : list nat := seq 0 64.

End image_utils_terms.

(** ** services/processor.py on the records of the extractor

    The extractor builds its records from parsed JSON, so that a value of a
    record is any JSON value, a string or not.  [DataProcessor] is modelled
    here on these records: the calls to the logger inside the [try] can then
    raise, and the [csv] writer converts the values it is given. *)

Module Pipeline.

Abbreviation record := (gmap string json).

Record ProcessingResult : Type := {
  total_images : Z;
  successful_images : Z;
  failed_images : list string;
  total_records : Z;
  all_results : list record
}.

(** [bool(v)] *)
Definition truthy (v : json) : bool :=
  match v with
  | JNone => false
  | JBool b => b
  | JInt n => negb (n =? 0)
  | JFloat x => negb (PrimFloat.eqb x 0%float)
  | JStr s => Str.truthy s
  | JList items => match items with [] => false | _ :: _ => true end
  | JDict entries =>
      match map_to_list entries with [] => false | _ :: _ => true end
  end.

(** [type(v).__name__] *)
Definition type_name (v : json) : string :=
  match v with
  | JNone => "NoneType"
  | JBool _ => "bool"
  | JInt _ => "int"
  | JFloat _ => "float"
  | JStr _ => "str"
  | JList _ => "list"
  | JDict _ => "dict"
  end.

(** [str(i)] for an index. *)
Definition str_of_nat (i : nat) : string :=
  NilZero.string_of_uint (Nat.to_uint i).

(** [str.join] checks its items from the [i]-th on: the first one that is
    no [str] is reported with its index. *)
Fixpoint str_items (i : nat) (items : list json) : result (list string) :=
  match items with
  | [] => Ok []
  | JStr s :: rest =>
      parts <-! str_items (S i) rest ;;
      Ok (s :: parts)
  | v :: _ =>
      Raise (PyException "TypeError"
               ("sequence item " ++ str_of_nat i
                ++ ": expected str instance, " ++ type_name v ++ " found"))
  end.

(** [sep.join(items)] *)
Definition join (sep : string) (items : list json) : result string :=
  parts <-! str_items 0 items ;;
  Ok (Str.join sep parts).

(** [' - '.join(filter(None, display_fields))] with the first two
    configured fields. *)
Definition sample_text (fields : list string) (r : record) : result string :=
  let display_fields :=
    (fun field => default (JStr "") (r !! field)) <$> take 2 fields in
  join " - " (List.filter truthy display_fields).

(** The loop of [_log_sample_records]: the lines logged, numbered from
    [j], until a line cannot be built. *)
Fixpoint sample_lines (fields : list string) (j : nat) (records : list record)
  : list Processor.event * result unit :=
  match records with
  | [] => ([], Ok tt)
  | r :: rest =>
      match sample_text fields r with
      | Raise e => ([], Raise e)
      | Ok text =>
          let '(evs, res) := sample_lines fields (S j) rest in
          (Processor.LogSample j text :: evs, res)
      end
  end.

(** [_log_sample_records(records, max_display=3)] *)
Definition log_sample_records (fields : list string) (records : list record)
  : list Processor.event * result unit :=
  let '(evs, res) := sample_lines fields 1 (take 3 records) in
  match res with
  | Raise e => (evs, Raise e)
  | Ok _ =>
      ((evs ++ (if (3 <? length records)%nat
                then [Processor.LogMore (length records - 3)] else []))%list,
       Ok tt)
  end.

Section process_images.

Context {W : Type}.
Variable extractor : string -> W -> W * result (list record).
Variable fields : list string.
Variable verbose : bool.
Variable progress_callback : bool.

Record locals : Type := {
  l_all_results : list record;
  l_total_records : Z;
  l_failed_images : list string;
  l_events : list Processor.event;
  l_world : W
}.

(** The two branches that end an iteration: the records are kept, or the
    name is appended to [failed_images]. *)
Definition keep (st : locals) (records : list record)
    (evs : list Processor.event) (w : W) : locals :=
  {| l_all_results := (l_all_results st ++ records)%list;
     l_total_records := l_total_records st + Z.of_nat (length records);
     l_failed_images := l_failed_images st;
     l_events := (l_events st ++ evs)%list;
     l_world := w |}.

Definition fail (st : locals) (name : string)
    (evs : list Processor.event) (w : W) : locals :=
  {| l_all_results := l_all_results st;
     l_total_records := l_total_records st;
     l_failed_images := (l_failed_images st ++ [name])%list;
     l_events := (l_events st ++ evs)%list;
     l_world := w |}.

(** The body of the [for] loop for the [i]-th image of [total]. *)
Definition body (total i : nat) (image_file : string) (st : locals)
  : locals :=
  let name := PathLib.name image_file in
  let ev0 := Processor.when verbose [Processor.LogProcessing i total name] in
  let '(w, outcome) := extractor image_file (l_world st) in
  let st' :=
    match outcome with
    | Ok ((_ :: _) as records) =>
        if verbose then
          let ev1 :=
            (ev0 ++ [Processor.LogExtracted (length records)])%list in
          match log_sample_records fields records with
          | (evs, Ok _) => keep st records (ev1 ++ evs)%list w
          | (evs, Raise e) =>
              fail st name (ev1 ++ evs ++ [Processor.LogError e])%list w
          end
        else keep st records ev0 w
    | Ok [] =>
        fail st name
             (ev0 ++ Processor.when verbose [Processor.LogNoRecords])%list w
    | Raise e =>
        fail st name
             (ev0 ++ Processor.when verbose [Processor.LogError e])%list w
    end in
  {| l_all_results := l_all_results st';
     l_total_records := l_total_records st';
     l_failed_images := l_failed_images st';
     l_events :=
       (l_events st'
        ++ Processor.when progress_callback
             [Processor.Progress i total name])%list;
     l_world := l_world st' |}.

Fixpoint loop (total i : nat) (image_files : list string) (st : locals)
  : locals :=
  match image_files with
  | [] => st
  | image_file :: rest => loop total (S i) rest (body total i image_file st)
  end.

Definition process_images (image_files : list string) (w : W)
  : ProcessingResult * list Processor.event * W :=
  let total := length image_files in
  let st :=
    loop total 1 image_files
         {| l_all_results := []; l_total_records := 0;
            l_failed_images := []; l_events := []; l_world := w |} in
  ({| total_images := Z.of_nat total;
      successful_images :=
        Z.of_nat total - Z.of_nat (length (l_failed_images st));
      failed_images := l_failed_images st;
      total_records := l_total_records st;
      all_results := l_all_results st |},
   l_events st, l_world st).

(** The outcomes of the calls to the extractor, image by image. *)
Fixpoint outcomes (image_files : list string) (w : W)
  : list (result (list record)) :=
  match image_files with
  | [] => []
  | image_file :: rest =>
      let '(w', outcome) := extractor image_file w in
      outcome :: outcomes rest w'
  end.

(** The world after the calls. *)
Fixpoint world_after (image_files : list string) (w : W) : W :=
  match image_files with
  | [] => w
  | image_file :: rest => world_after rest (extractor image_file w).1
  end.

End process_images.

Section save_to_csv.

(** [str(v)] for the values that are not strings: the digits of a number,
    [True], the display of a list or a dict. *)
Variable py_str : json -> string.

(** What the [csv] writer writes for a value: nothing for [None], a [str]
    as it is, and [str(v)] for any other value. *)
Definition cell (v : json) : string :=
  match v with
  | JNone => ""
  | JStr s => s
  | _ => py_str v
  end.

(** [save_to_csv]: [DictWriter] looks at the keys of a record, and the
    writer converts its values. *)
Definition save_to_csv (output_file : string) (fieldnames : list string)
    (results : list record) (fs : Processor.files)
  : Processor.files * result unit :=
  Processor.save_to_csv output_file fieldnames
    ((fun r : record => cell <$> r) <$> results) fs.

End save_to_csv.

End Pipeline.

(** ** models/app_config.py: construction and validation *)

Module ConfigOps.

(** [Config(images_folder=..., output_file=..., extract_fields=...)] in an
    environment into which the [.env] file has been loaded.  The key is
    read and checked here; [extract_fields or [...]] replaces [None] and the
    empty list by the default fields. *)
Definition init (env : EnvConfig.environ) (images_folder output_file : string)
    (extract_fields : option (list string)) : result Config.t :=
  key <-! EnvConfig.get_openai_api_key env ;;
  Ok {| Config.images := images_folder;
        Config.openai := OpenAIConfig.init key;
        Config.output_file := output_file;
        Config.extract_fields :=
          match extract_fields with
          | Some ((_ :: _) as l) => l
          | _ => Config.default_fields
          end |}.

(** [Config.validate]: reading the key cannot fail any more; the folder is
    checked. *)
Definition validate (st : ImageFolderConfig.folder_state) (self : Config.t)
  : result unit :=
  ImageFolderConfig.validate st (Config.images self).

End ConfigOps.

(** ** main.py *)

Module Main.



(** What a run leaves behind: the files, the number of calls made to the
    extractor, and what the processor logged. *)
Record effects : Type := {
  files_after : Processor.files;
  calls : nat;
  logged : list Processor.event
}.

Section main.

(** The world at the [n]-th call of the extractor: the image files and the
    API may answer differently each time. *)
Variable worlds : nat -> Extractor.World.
Variable py_str : json -> string.
(** [OpenAI(api_key=...)] *)
Variable client : Extractor.answer unit.

Definition extractor (config : Config.t)
  : string -> nat -> nat * result (list Pipeline.record) :=
  fun image_path n =>
    (S n, Extractor.extract_all_info (worlds n) config image_path).

(** The body of the [try]; the lines [main] itself logs are left out. *)
Definition try_body (env : EnvConfig.environ)
    (st : ImageFolderConfig.folder_state) (fs : Processor.files)
  : effects * result unit :=
  let nothing := {| files_after := fs; calls := 0; logged := [] |} in
  match ConfigOps.init env "images" "extracted_data_gpt_all.csv"
                       (Some ["filename"; "email"; "firstname"; "name"]) with
  | Raise e => (nothing, Raise e)
  | Ok config =>
  match ConfigOps.validate st config with
  | Raise e => (nothing, Raise e)
  | Ok _ =>
  match Extractor.call client with
  | Raise e => (nothing, Raise e)
  | Ok _ =>
  match ImageFolderConfig.get_image_files st (Config.images config) with
  | Raise e => (nothing, Raise e)
  | Ok image_files =>
      let '(result, evs, n) :=
        Pipeline.process_images (extractor config)
          (Config.extract_fields config) true false image_files 0%nat in
      let '(fs', saved) :=
        Pipeline.save_to_csv py_str (Config.output_file config)
          (Config.extract_fields config) (Pipeline.all_results result) fs in
      ({| files_after := fs'; calls := n; logged := evs |}, saved)
  end end end end.


End main.

End Main.

(** ** More vocabulary: the processor on the records of the extractor *)

Section pipeline_terms.

Import Pipeline.

(** The call raised. *)
Definition raises {A} (r : result A) : bool :=
  match r with Ok _ => false | Raise _ => true end.

(** A value [str.join] rejects after [filter(None, ...)] kept it: it is
    truthy and no string. *)
Definition bad_value (v : json) : bool :=
  truthy v && match v with JStr _ => false | _ => true end.

(** One of the first two configured fields of the record holds such a
    value. *)
Definition bad_record (fields : list string) (r : record) : bool :=
  existsb (fun field => bad_value (default (JStr "") (r !! field)))
          (take 2 fields).

(** One of the first three records is such a record. *)
Definition sample_fails (fields : list string) (records : list record)
  : bool :=
  existsb (bad_record fields) (take 3 records).

(** The image is counted as failed: the extractor raised or returned no
    record, or the run is verbose and the sample cannot be logged. *)
Definition counted_failed (verbose : bool) (fields : list string)
    (out : result (list record)) : bool :=
  match out with
  | Ok ((_ :: _) as records) => verbose && sample_fails fields records
  | _ => true
  end.

(** The base names of the images counted as failed, and the records of the
    others. *)
Fixpoint names_where (p : result (list record) -> bool)
    (image_files : list string) (outs : list (result (list record)))
  : list string :=
  match image_files, outs with
  | image_file :: files', out :: outs' =>
      (if p out then [PathLib.name image_file] else [])
      ++ names_where p files' outs'
  | _, _ => []
  end.

Definition records_where (p : result (list record) -> bool)
    (outs : list (result (list record))) : list record :=
  concat ((fun out => if p out then []
                      else match out with Ok records => records
                                        | Raise _ => [] end) <$> outs).

(** A record of strings as a record of JSON values, and the same for what
    an extractor returns and for a result. *)
Definition embed (r : Processor.record) : record := JStr <$> r.

Definition embed_outcome (out : result (list Processor.record))
  : result (list record) :=
  match out with
  | Ok records => Ok (embed <$> records)
  | Raise e => Raise e
  end.

Definition embed_extractor {W : Type}
    (extractor : string -> W -> W * result (list Processor.record))
  : string -> W -> W * result (list record) :=
  fun image_file w =>
    let '(w', out) := extractor image_file w in (w', embed_outcome out).

Definition embed_result (r : Processor.ProcessingResult) : ProcessingResult :=
  {| total_images := Processor.total_images r;
     successful_images := Processor.successful_images r;
     failed_images := Processor.failed_images r;
     total_records := Processor.total_records r;
     all_results := embed <$> Processor.all_results r |}.

(** The local variables of the loop on records of strings, as those of the
    loop on records of JSON values. *)
Definition embed_locals {W : Type} (st : @Processor.locals W) : @locals W :=
  {| l_all_results := embed <$> Processor.l_all_results st;
     l_total_records := Processor.l_total_records st;
     l_failed_images := Processor.l_failed_images st;
     l_events := Processor.l_events st;
     l_world := Processor.l_world st |}.

End pipeline_terms.

(** ** More vocabulary: the whole run *)

Section main_terms.





End main_terms.

(* ================================================================== *)
(** * Part II: properties                                             *)
(* ================================================================== *)

(** ** Secret validation *)

Section env_config.

Import EnvConfig.

Lemma falsy_spec (o : option string) :
  falsy o = true <-> o = None \/ o = Some "".
Proof.
  destruct o as [[|c s]|]; simpl; split; intros H; auto;
    try discriminate; destruct H; discriminate.
Qed.

Lemma get_no_default (env : environ) : get env KEY None = env !! KEY.
Proof. unfold get. now destruct (env !! KEY). Qed.

(** C8.  [get_openai_api_key] raises [OpenAIKeyNotFoundError] exactly when
    the key is absent or empty, raises [OpenAIKeyInvalidError] exactly when
    a non-empty key is the placeholder or lacks the prefix [sk-], and
    returns the key unchanged in every other case; the key
    [sk-test123456] is accepted, the keys [your-api-key-here] and
    [invalid-key] are invalid. *)
Theorem get_openai_api_key_spec (env : environ) :
  (get_openai_api_key env = Raise OpenAIKeyNotFoundError
     <-> env !! KEY = None \/ env !! KEY = Some "")
  /\ (get_openai_api_key env = Raise OpenAIKeyInvalidError
      <-> exists k, env !! KEY = Some k /\ k <> ""
                    /\ (k = PLACEHOLDER \/ Str.startswith k "sk-" = false))
  /\ (forall k, get_openai_api_key env = Ok k
      <-> env !! KEY = Some k /\ k <> "" /\ k <> PLACEHOLDER
          /\ Str.startswith k "sk-" = true)
  /\ get_openai_api_key (<[KEY := "sk-test123456"]> env) = Ok "sk-test123456"
  /\ get_openai_api_key (<[KEY := PLACEHOLDER]> env)
     = Raise OpenAIKeyInvalidError
  /\ get_openai_api_key (<[KEY := "invalid-key"]> env)
     = Raise OpenAIKeyInvalidError
  /\ get_openai_api_key (<[KEY := ""]> env) = Raise OpenAIKeyNotFoundError
  /\ get_openai_api_key (delete KEY env) = Raise OpenAIKeyNotFoundError.
Proof.
  assert (Hgen : forall e : environ,
    get_openai_api_key e =
      match e !! KEY with
      | None | Some "" => Raise OpenAIKeyNotFoundError
      | Some k =>
          if String.eqb k PLACEHOLDER then Raise OpenAIKeyInvalidError
          else if negb (Str.startswith k "sk-")
               then Raise OpenAIKeyInvalidError else Ok k
      end).
  { intros e. unfold get_openai_api_key. fold KEY. rewrite get_no_default.
    destruct (e !! KEY) as [[|c s]|]; reflexivity. }
  split; [split|split; [split|split; [intros k; split|]]].
  - rewrite Hgen. destruct (env !! KEY) as [[|c s]|]; auto.
    destruct (String.eqb_spec (String c s) PLACEHOLDER); [discriminate|].
    destruct (Str.startswith (String c s) "sk-"); discriminate.
  - rewrite Hgen. intros [H|H]; rewrite H; reflexivity.
  - rewrite Hgen. destruct (env !! KEY) as [[|c s]|]; try discriminate.
    intros H. exists (String c s). split; [reflexivity|].
    split; [discriminate|].
    destruct (String.eqb_spec (String c s) PLACEHOLDER); [now left|].
    right. destruct (Str.startswith (String c s) "sk-");
      [discriminate | reflexivity].
  - rewrite Hgen. intros (k & -> & Hne & Hk).
    destruct k as [|c s]; [contradiction|].
    destruct Hk as [->|Hk]; [reflexivity|].
    destruct (String.eqb_spec (String c s) PLACEHOLDER); [reflexivity|].
    now rewrite Hk.
  - rewrite Hgen. destruct (env !! KEY) as [[|c s]|]; try discriminate.
    destruct (String.eqb_spec (String c s) PLACEHOLDER); [discriminate|].
    destruct (Str.startswith (String c s) "sk-") eqn:Hs; [|discriminate].
    intros [= <-]. repeat split; auto; discriminate.
  - rewrite Hgen. intros (-> & Hne & Hp & Hs).
    destruct k as [|c s]; [contradiction|].
    destruct (String.eqb_spec (String c s) PLACEHOLDER); [contradiction|].
    now rewrite Hs.
  - rewrite !Hgen, !lookup_insert_eq, lookup_delete_eq. repeat split.
Qed.

End env_config.

(** ** The guarded setters of the API parameters *)

Section openai_config.

Import OpenAIConfig.

(** C7.  The [max_tokens] setter accepts exactly the positive integers and
    the [temperature] setter exactly the values between 0.0 and 2.0, ends
    included.  An accepted write is retained: reading the attribute
    afterwards returns the value written.  A rejected write raises
    [InvalidMaxTokensError], respectively [InvalidTemperatureError], and
    leaves the object as it was.  500 and 1.0 are accepted, and so are the
    ends 0.0 and 2.0; 0, -100, -0.1, 2.1 and NaN are rejected. *)
Theorem setters_spec (self : t) (n : Z) (x : float) :
  (set_max_tokens n self = (with_max_tokens self n, Ok tt) <-> 0 < n)
  /\ (set_max_tokens n self = (self, Raise (InvalidMaxTokensError n))
      <-> n <= 0)
  /\ max_tokens (with_max_tokens self n) = n
  /\ (set_temperature x self = (with_temperature self x, Ok tt)
      <-> PrimFloat.leb 0 x = true /\ PrimFloat.leb x 2 = true)
  /\ (set_temperature x self = (self, Raise (InvalidTemperatureError x))
      <-> ~ (PrimFloat.leb 0 x = true /\ PrimFloat.leb x 2 = true))
  /\ temperature (with_temperature self x) = x
  /\ set_max_tokens 500 self = (with_max_tokens self 500, Ok tt)
  /\ set_max_tokens 0 self = (self, Raise (InvalidMaxTokensError 0))
  /\ set_max_tokens (-100) self = (self, Raise (InvalidMaxTokensError (-100)))
  /\ set_temperature 1 self = (with_temperature self 1, Ok tt)
  /\ set_temperature (-0.1) self
     = (self, Raise (InvalidTemperatureError (-0.1)))
  /\ set_temperature 2.1 self = (self, Raise (InvalidTemperatureError 2.1))
  /\ set_temperature 0 self = (with_temperature self 0, Ok tt)
  /\ set_temperature 2 self = (with_temperature self 2, Ok tt)
  /\ set_temperature PrimFloat.nan self
     = (self, Raise (InvalidTemperatureError PrimFloat.nan)).
Proof.
  unfold set_max_tokens, set_temperature, in_range, with_max_tokens,
    with_temperature.
  repeat split; try reflexivity.
  - destruct (Z.leb_spec n 0); [discriminate | lia].
  - intros H. destruct (Z.leb_spec n 0); [lia | reflexivity].
  - destruct (Z.leb_spec n 0); [lia | discriminate].
  - intros H. destruct (Z.leb_spec n 0); [reflexivity | lia].
  - destruct (PrimFloat.leb 0 x); [reflexivity | discriminate].
  - destruct (PrimFloat.leb 0 x), (PrimFloat.leb x 2);
      try reflexivity; discriminate.
  - intros [-> ->]. reflexivity.
  - destruct (PrimFloat.leb 0 x), (PrimFloat.leb x 2); simpl;
      try discriminate; intros _ [? ?]; discriminate.
  - intros H. destruct (PrimFloat.leb 0 x), (PrimFloat.leb x 2); simpl;
      try reflexivity. exfalso. apply H. split; reflexivity.
Qed.

End openai_config.

(** ** The success rate *)

Section success_rate.

Import Processor.


End success_rate.

(** ** The listing of the image folder *)

Section image_folder.

Import ImageFolderConfig.

Lemma compare_OT (s1 s2 : string) :
  String.compare s1 s2 = OrdersEx.String_as_OT.compare s1 s2.
Proof.
  revert s2. induction s1 as [|a s1 IH]; intros [|b s2]; simpl; try reflexivity.
Qed.

Lemma ltb_lt (s1 s2 : string) :
  String.ltb s1 s2 = true <-> OrdersEx.String_as_OT.lt s1 s2.
Proof.
  unfold String.ltb, OrdersEx.String_as_OT.lt. rewrite compare_OT.
  destruct (OrdersEx.String_as_OT.compare s1 s2); split; congruence.
Qed.

Lemma ltb_irrefl (s : string) : String.ltb s s = false.
Proof.
  destruct (String.ltb s s) eqn:H; [|reflexivity].
  apply ltb_lt in H. exfalso. revert H. apply irreflexivity. apply _.
Qed.

Lemma ltb_trans (a b c : string) :
  String.ltb a b = true -> String.ltb b c = true -> String.ltb a c = true.
Proof.
  rewrite !ltb_lt. apply transitivity.
Qed.

Lemma ltb_trichotomy (a b : string) :
  String.ltb a b = false -> a <> b -> String.ltb b a = true.
Proof.
  intros H Hne. apply ltb_lt.
  destruct (OrdersEx.String_as_OT.compare_spec a b) as [?|Hlt|?]; try done.
  apply ltb_lt in Hlt. congruence.
Qed.

Lemma list_ltb_irrefl l : list_ltb l l = false.
Proof. induction l as [|a l IH]; simpl; [done|]. by rewrite String.eqb_refl. Qed.

Lemma list_le_trans (a b c : list string) :
  list_ltb b a = false -> list_ltb c b = false -> list_ltb c a = false.
Proof.
  revert b c. induction a as [|x a IH]; intros [|y b] [|z c]; simpl; try done.
  destruct (String.eqb_spec y x) as [Eyx|Hyx];
    destruct (String.eqb_spec z y) as [Ezy|Hzy]; subst.
  - rewrite String.eqb_refl. apply IH.
  - destruct (String.eqb_spec z x) as [->|_]; done.
  - destruct (String.eqb_spec y x) as [->|_]; done.
  - intros H1 H2. 
    pose proof (ltb_trichotomy _ _ H1 Hyx) as H3.
    pose proof (ltb_trichotomy _ _ H2 Hzy) as H4.
    pose proof (ltb_trans _ _ _ H3 H4) as H5.
    destruct (String.eqb_spec z x) as [->|_].
    + by rewrite ltb_irrefl in H5.
    + destruct (String.ltb z x) eqn:E; [|done].
      pose proof (ltb_trans _ _ _ E H5) as H6. by rewrite ltb_irrefl in H6.
Qed.

Lemma list_ltb_asym (a b : list string) :
  list_ltb a b = true -> list_ltb b a = false.
Proof.
  revert b. induction a as [|x a IH]; intros [|y b]; simpl; try done.
  destruct (String.eqb_spec x y) as [->|Hxy].
  - rewrite String.eqb_refl. apply IH.
  - destruct (String.eqb_spec y x) as [->|_]; [done|].
    intros H. destruct (String.ltb y x) eqn:E; [|done].
    pose proof (ltb_trans _ _ _ H E) as H6. by rewrite ltb_irrefl in H6.
Qed.

Lemma list_ltb_antisym (a b : list string) :
  list_ltb a b = false -> list_ltb b a = false -> a = b.
Proof.
  revert b. induction a as [|x a IH]; intros [|y b]; simpl; try done.
  destruct (String.eqb_spec x y) as [->|Hxy].
  - rewrite String.eqb_refl. intros. f_equal. by apply IH.
  - destruct (String.eqb_spec y x) as [->|_]; [done|].
    intros H1 H2. exfalso. 
    pose proof (ltb_trichotomy _ _ H1 Hxy). congruence.
Qed.

#[global] Instance path_le_total : Total path_le.
Proof.
  intros p q. unfold path_le, path_ltb.
  destruct (list_ltb (Str.split_slash q) (Str.split_slash p)) eqn:E; [|by left].
  right. by apply list_ltb_asym.
Qed.

#[global] Instance path_le_trans : Transitive path_le.
Proof. intros p q r. unfold path_le, path_ltb. intros H1 H2. eapply list_le_trans; eauto. Qed.



End image_folder.

(** ** The processing loop *)

Section process_images_spec.

Import Processor.

Context {W : Type}.
Variable extractor : string -> W -> W * result (list record).
Variable fields : list string.
Variable verbose : bool.
Variable progress_callback : bool.

Lemma outcomes_length (image_files : list string) (w : W) :
  length (outcomes extractor image_files w) = length image_files.
Proof.
  revert w. induction image_files as [|f files IH]; intros w; simpl; [done|].
  destruct (extractor f w) as [w' out]. simpl. by rewrite IH.
Qed.

Lemma body_spec (total i : nat) (image_file : string) (st : locals) :
  let out := (extractor image_file (l_world st)).2 in
  let st' := body extractor fields verbose progress_callback
                  total i image_file st in
  l_failed_images st'
  = (l_failed_images st
     ++ (if failed out then [PathLib.name image_file] else []))%list
  /\ l_all_results st' = (l_all_results st ++ records_of out)%list
  /\ l_total_records st'
     = (l_total_records st + Z.of_nat (length (records_of out)))%Z
  /\ l_world st' = (extractor image_file (l_world st)).1.
Proof.
  unfold body. destruct (extractor image_file (l_world st)) as [w' out].
  destruct out as [[|r rs]|e]; simpl;
    rewrite ?app_nil_r, ?Z.add_0_r; done.
Qed.

Lemma loop_spec (total : nat) (image_files : list string) :
  forall (i : nat) (st : locals),
    let outs := outcomes extractor image_files (l_world st) in
    let st' := loop extractor fields verbose progress_callback
                    total i image_files st in
    l_failed_images st'
    = (l_failed_images st ++ failed_names image_files outs)%list
    /\ l_all_results st'
       = (l_all_results st ++ concat (records_of <$> outs))%list
    /\ l_total_records st'
       = (l_total_records st
          + Z.of_nat (length (concat (records_of <$> outs))))%Z
    /\ l_world st' = world_after extractor image_files (l_world st).
Proof.
  induction image_files as [|f files IH]; intros i st; simpl.
  - rewrite !app_nil_r, Z.add_0_r. done.
  - destruct (body_spec total i f st) as (Hf & Ha & Ht & Hw).
    destruct (IH (S i) (body extractor fields verbose progress_callback
                             total i f st)) as (Hf' & Ha' & Ht' & Hw').
    rewrite Hw in Hf', Ha', Ht', Hw'.
    destruct (extractor f (l_world st)) as [w' out]; simpl in *.
    rewrite Hf', Ha', Ht', Hw', Hf, Ha, Ht.
    rewrite length_app, Nat2Z.inj_add, <- !app_assoc.
    repeat split; try done. rewrite <- Z.add_assoc. reflexivity.
Qed.



End process_images_spec.

(** ** The extractor *)

Section extractor.

Import Str Extractor.

Lemma str_app_cons (c : ascii) (s t : string) :
  String c s ++ t = String c (s ++ t).
Proof. reflexivity. Qed.

Lemma str_app_nil_l (s : string) : "" ++ s = s.
Proof. reflexivity. Qed.

Lemma str_app_nil_r (s : string) : s ++ "" = s.
Proof. induction s as [|c s IH]; [done|]. by rewrite str_app_cons, IH. Qed.

Lemma str_app_assoc (a b c : string) : a ++ b ++ c = (a ++ b) ++ c.
Proof. induction a as [|x a IH]; [done|]. by rewrite !str_app_cons, IH. Qed.

Lemma rev_onto_app (s acc : string) : rev_onto s acc = reverse s ++ acc.
Proof.
  unfold reverse. revert acc.
  induction s as [|c s IH]; intros acc; simpl; [done|].
  rewrite (IH (String c acc)), (IH (String c "")), <- str_app_assoc. done.
Qed.

Lemma str_reverse_cons (c : ascii) (s : string) :
  reverse (String c s) = reverse s ++ String c "".
Proof. unfold reverse at 1. simpl. apply rev_onto_app. Qed.

Lemma str_reverse_app (a b : string) : reverse (a ++ b) = reverse b ++ reverse a.
Proof.
  induction a as [|c a IH].
  - by rewrite str_app_nil_l, str_app_nil_r.
  - by rewrite str_app_cons, !str_reverse_cons, IH, str_app_assoc.
Qed.

Lemma str_reverse_involutive (s : string) : reverse (reverse s) = s.
Proof.
  induction s as [|c s IH]; [done|].
  by rewrite str_reverse_cons, str_reverse_app, IH.
Qed.

Lemma blank_app (a b : string) : blank (a ++ b) = blank a && blank b.
Proof.
  induction a as [|c a IH]; [done|].
  rewrite str_app_cons. simpl. by rewrite IH, andb_assoc.
Qed.

Lemma blank_reverse (s : string) : blank (reverse s) = blank s.
Proof.
  induction s as [|c s IH]; [done|].
  rewrite str_reverse_cons, blank_app, IH. simpl.
  by rewrite andb_true_r, andb_comm.
Qed.

Lemma lstrip_blank_app (ws s : string) :
  blank ws = true -> lstrip (ws ++ s) = lstrip s.
Proof.
  induction ws as [|c ws IH]; [done|].
  rewrite str_app_cons. simpl. intros [Hc Hws]%andb_true_iff. rewrite Hc. auto.
Qed.

Lemma rstrip_app_blank (s ws : string) :
  blank ws = true -> rstrip (s ++ ws) = rstrip s.
Proof.
  intros H. unfold rstrip. rewrite str_reverse_app, lstrip_blank_app; [done|].
  by rewrite blank_reverse.
Qed.

Lemma lstrip_solid (s : string) : solid_head s = true -> lstrip s = s.
Proof. destruct s as [|c s]; simpl; [done|]. by intros ->%negb_true_iff. Qed.

Lemma solid_head_app (s t : string) :
  solid_head s = true -> solid_head (s ++ t) = true.
Proof. by destruct s. Qed.

Lemma solid_head_lstrip (s : string) :
  lstrip s <> "" -> solid_head (lstrip s) = true.
Proof.
  induction s as [|c s IH]; simpl; [done|].
  destruct (isspace c) eqn:E; [done|]. simpl. by rewrite E.
Qed.

Lemma lstrip_app (s t : string) :
  lstrip s <> "" -> lstrip (s ++ t) = lstrip s ++ t.
Proof.
  induction s as [|c s IH]; [done|].
  rewrite str_app_cons. simpl. destruct (isspace c); [done|]. done.
Qed.

Lemma lstrip_idem (s : string) : lstrip (lstrip s) = lstrip s.
Proof.
  induction s as [|c s IH]; simpl; [done|].
  destruct (isspace c) eqn:E; [done|]. simpl. by rewrite E.
Qed.

Lemma rstrip_idem (s : string) : rstrip (rstrip s) = rstrip s.
Proof. unfold rstrip. by rewrite str_reverse_involutive, lstrip_idem. Qed.

Lemma startswith_app (s p : string) : startswith (p ++ s) p = true.
Proof.
  induction p as [|c p IH]; [done|].
  rewrite str_app_cons. simpl. by rewrite Ascii.eqb_refl.
Qed.

Lemma str_drop_app (p s : string) : drop (String.length p) (p ++ s) = s.
Proof. induction p as [|c p IH]; [by destruct s|]. by rewrite str_app_cons. Qed.

Lemma endswith_app (s p : string) : endswith (s ++ p) p = true.
Proof. unfold endswith. rewrite str_reverse_app. apply startswith_app. Qed.

Lemma str_length_reverse (s : string) : String.length (reverse s) = String.length s.
Proof.
  induction s as [|c s IH]; [done|].
  rewrite str_reverse_cons. simpl. rewrite <- IH.
  generalize (reverse s). intros r. induction r as [|x r IHr]; [done|].
  rewrite str_app_cons. simpl. by rewrite IHr.
Qed.

Lemma drop_end_app (s p : string) :
  drop_end (String.length p) (s ++ p) = s.
Proof.
  unfold drop_end. rewrite str_reverse_app, <- (str_length_reverse p), str_drop_app.
  apply str_reverse_involutive.
Qed.

Lemma lstrip_decompose (s : string) :
  exists ws, blank ws = true /\ s = ws ++ lstrip s.
Proof.
  induction s as [|c s (ws & Hws & IH)]; [by exists ""|].
  simpl. destruct (isspace c) eqn:E.
  - exists (String c ws). simpl. rewrite E, Hws, str_app_cons. by rewrite <- IH.
  - by exists "".
Qed.

Lemma rstrip_decompose (s : string) :
  exists ws, blank ws = true /\ s = rstrip s ++ ws.
Proof.
  destruct (lstrip_decompose (reverse s)) as (ws & Hws & H).
  exists (reverse ws). rewrite blank_reverse. split; [done|].
  unfold rstrip. rewrite <- str_reverse_app, <- H. by rewrite str_reverse_involutive.
Qed.

Lemma strip_decompose (s : string) :
  exists w1 w2, blank w1 = true /\ blank w2 = true
                /\ s = w1 ++ strip s ++ w2.
Proof.
  destruct (lstrip_decompose s) as (w1 & H1 & E1).
  destruct (rstrip_decompose (lstrip s)) as (w2 & H2 & E2).
  exists w1, w2. unfold strip. by rewrite <- E2, <- E1.
Qed.

Lemma rstrip_solid (s : string) :
  solid_head (reverse s) = true -> rstrip s = s.
Proof.
  intros H. unfold rstrip. rewrite lstrip_solid by done.
  apply str_reverse_involutive.
Qed.

Lemma strip_padded (w1 m w2 : string) :
  blank w1 = true -> blank w2 = true ->
  solid_head m = true -> solid_head (reverse m) = true ->
  strip (w1 ++ m ++ w2) = m.
Proof.
  intros H1 H2 Hm Hr. unfold strip.
  rewrite lstrip_blank_app by done.
  rewrite lstrip_solid by by apply solid_head_app.
  rewrite rstrip_app_blank by done. by apply rstrip_solid.
Qed.

Lemma startswith_first_char (s p : string) (a c : ascii) :
  first_char s = Some c -> c <> a -> startswith s (String a p) = false.
Proof.
  destruct s as [|b s]; simpl; [done|]. intros [= ->] Hne.
  destruct (Ascii.eqb_spec a c); [congruence|done].
Qed.

Lemma first_char_padded (b x : string) (a : ascii) :
  blank b = true ->
  exists c, first_char (b ++ String a x) = Some c /\ (isspace c = true \/ c = a).
Proof.
  destruct b as [|c b]; simpl.
  - intros _. exists a. auto.
  - intros [Hc _]%andb_true_iff. exists c. auto.
Qed.

Lemma startswith_cons_inv (s p : string) (a : ascii) :
  startswith s (String a p) = true -> exists s', s = String a s'.
Proof.
  destruct s as [|b s]; simpl; [done|].
  destruct (Ascii.eqb_spec a b) as [->|]; [|done]. eauto.
Qed.

Lemma endswith_char_inv (s : string) (a : ascii) :
  endswith s (String a "") = true -> exists r, reverse s = String a r.
Proof.
  unfold endswith. change (reverse (String a "")) with (String a "").
  apply startswith_cons_inv.
Qed.

Section fence.

Variables (opening ws1 ws2 ws3 ws4 t : string).
Hypothesis Hopening : opening = FENCE_JSON \/ opening = FENCE.
Hypothesis Hws1 : blank ws1 = true.
Hypothesis Hws2 : blank ws2 = true.
Hypothesis Hws3 : blank ws3 = true.
Hypothesis Hws4 : blank ws4 = true.
Hypothesis Ht : json_array_text t = true.

Lemma bare_cleaned : remove_markers (strip t) = strip t.
Proof.
  apply andb_true_iff in Ht as [Hs He].
  apply startswith_cons_inv in Hs as [core Hcore].
  apply endswith_char_inv in He as [rcore Hrcore].
  unfold remove_markers, FENCE_JSON, FENCE.
  rewrite (startswith_first_char (strip t) _ "`" "[") by (by rewrite ?Hcore).
  rewrite (startswith_first_char (strip t) _ "`" "[") by (by rewrite ?Hcore).
  unfold endswith. change (reverse "```") with "```".
  rewrite (startswith_first_char (reverse (strip t)) _ "`" "]")
    by (by rewrite ?Hrcore).
  rewrite <- (str_app_nil_r (strip t)) at 1.
  change (strip t ++ "") with ("" ++ strip t ++ "").
  apply strip_padded; try done.
  - by rewrite Hcore.
  - by rewrite Hrcore.
Qed.

Lemma fenced_cleaned :
  remove_markers (strip (fenced opening ws1 ws2 ws3 ws4 t)) = strip t.
Proof.
  pose proof Ht as Ht'.
  apply andb_true_iff in Ht' as [Hs He].
  apply startswith_cons_inv in Hs as [core Hcore].
  apply endswith_char_inv in He as [rcore Hrcore].
  destruct (strip_decompose t) as (w1 & w2 & Hw1 & Hw2 & Et).
  set (body := ws2 ++ t ++ ws3).
  assert (Hbody : strip body = strip t).
  { unfold body. rewrite Et at 1.
    replace (ws2 ++ (w1 ++ strip t ++ w2) ++ ws3)
      with ((ws2 ++ w1) ++ strip t ++ (w2 ++ ws3))
      by (by rewrite <- !str_app_assoc).
    apply strip_padded.
    - by rewrite blank_app, Hws2, Hw1.
    - by rewrite blank_app, Hw2, Hws3.
    - by rewrite Hcore.
    - by rewrite Hrcore. }
  assert (Hhead : exists c, first_char (body ++ FENCE) = Some c
                            /\ (isspace c = true \/ c = "["%char)).
  { unfold body. rewrite Et, Hcore.
    replace ((ws2 ++ (w1 ++ String "[" core ++ w2) ++ ws3) ++ FENCE)
      with ((ws2 ++ w1) ++ String "[" (core ++ w2 ++ ws3 ++ FENCE))
      by (by rewrite <- !str_app_assoc).
    apply first_char_padded. by rewrite blank_app, Hws2, Hw1. }
  destruct Hhead as (c & Hc & Hc').
  assert (Hstrip : strip (fenced opening ws1 ws2 ws3 ws4 t)
                   = opening ++ body ++ FENCE).
  { unfold fenced, body.
    replace (ws1 ++ opening ++ ws2 ++ t ++ ws3 ++ FENCE ++ ws4)
      with (ws1 ++ (opening ++ (ws2 ++ t ++ ws3) ++ FENCE) ++ ws4)
      by (by rewrite <- !str_app_assoc).
    apply strip_padded; try done.
    - by destruct Hopening as [-> | ->].
    - rewrite !str_reverse_app. by destruct Hopening as [-> | ->]. }
  rewrite Hstrip. unfold remove_markers.
  assert (E1 : startswith (body ++ FENCE) FENCE = false).
  { apply (startswith_first_char _ _ _ c Hc). intros ->. by destruct Hc' as [Hc'|Hc']. }
  assert (E2 : startswith (FENCE ++ body ++ FENCE) FENCE_JSON = false).
  { change (startswith (body ++ FENCE) "json" = false).
    apply (startswith_first_char _ _ _ c Hc). intros ->. by destruct Hc' as [Hc'|Hc']. }
  assert (E3 : Str.drop_end 3 (body ++ FENCE) = body)
    by apply (drop_end_app body FENCE).
  destruct Hopening as [-> | ->].
  - rewrite startswith_app.
    replace (Str.drop 7 (FENCE_JSON ++ body ++ FENCE)) with (body ++ FENCE)
      by (symmetry; apply (str_drop_app FENCE_JSON)).
    by rewrite E1, endswith_app, E3.
  - rewrite E2, startswith_app.
    replace (Str.drop 3 (FENCE ++ body ++ FENCE)) with (body ++ FENCE)
      by (symmetry; apply (str_drop_app FENCE)).
    by rewrite endswith_app, E3.
Qed.

End fence.

(** C6.  Let [t] be a JSON-array text (stripped, it starts with an opening
    bracket and ends with a closing one).  A response text made of [t]
    between an opening fence, "```json" or "```", and the closing fence
    "```", with any whitespace around the fences, is cleaned to the same
    text as the bare [t]: each cleaning yields [t] stripped.  The text handed
    to [json.loads] is therefore the same, and [extract_all_info] returns
    the same records, or raises the same error, for the fenced response and
    for the bare one. *)
Theorem fenced_response_parses_like_bare
    (opening ws1 ws2 ws3 ws4 t : string)
    (w : World) (cfg : Config.t) (image_path : string) (more : list Choice) :
  opening = FENCE_JSON \/ opening = FENCE ->
  blank ws1 = true -> blank ws2 = true ->
  blank ws3 = true -> blank ws4 = true ->
  json_array_text t = true ->
  let wrapped := fenced opening ws1 ws2 ws3 ws4 t in
  remove_markers (strip wrapped) = strip t
  /\ remove_markers (strip t) = strip t
  /\ cleaned_text (respond w wrapped more) cfg image_path
     = cleaned_text (respond w t more) cfg image_path
  /\ extract_all_info (respond w wrapped more) cfg image_path
     = extract_all_info (respond w t more) cfg image_path.
Proof.
  intros Hop H1 H2 H3 H4 Ht wrapped.
  pose proof (fenced_cleaned opening ws1 ws2 ws3 ws4 t Hop H1 H2 H3 H4 Ht)
    as Hf.
  pose proof (bare_cleaned t Ht) as Hb.
  assert (Hc : cleaned_text (respond w wrapped more) cfg image_path
               = cleaned_text (respond w t more) cfg image_path).
  { unfold cleaned_text, encode_image. simpl.
    destruct (call (read_bytes w image_path)) as [data|e]; simpl; [|done].
    fold wrapped in Hf. by rewrite Hf, Hb. }
  repeat split; try done.
  unfold extract_all_info, try_body. by rewrite Hc.
Qed.

Lemma fenced_response_example :
  extract_all_info
    (respond demo_world (fenced FENCE_JSON "" NL NL "" array_example) [])
    demo_config "images/test.png"
  = extract_all_info (respond demo_world array_example [])
                     demo_config "images/test.png".
Proof.
  apply (fenced_response_parses_like_bare FENCE_JSON "" NL NL "" array_example
           demo_world demo_config "images/test.png" []);
    first [ by left | reflexivity ].
Defined.








Lemma iterate_not_json (v : json) (e : exc) :
  iterate v = Raise e -> is_JSONDecodeError e = false.
Proof. destruct v; simpl; try done; by intros [= <-]. Qed.

Lemma format_item_not_json (image_path : string) (v : json) (e : exc) :
  format_item image_path v = Raise e -> is_JSONDecodeError e = false.
Proof. destruct v; simpl; try done; by intros [= <-]. Qed.

Lemma format_items_not_json (image_path : string) (items : list json) (e : exc) :
  format_items image_path items = Raise e -> is_JSONDecodeError e = false.
Proof.
  induction items as [|v items IH]; simpl; [done|].
  destruct (format_item image_path v) as [r|e1] eqn:E1; simpl.
  - destruct (format_items image_path items) as [rs|e2]; simpl; [done|].
    intros [= <-]. by apply IH.
  - intros [= <-]. by eapply format_item_not_json.
Qed.



End extractor.

(** ** The CSV file *)

Section csv.

Import Str Csv Processor.

Lemma bind_assoc {A B C} (r : result A) (f : A -> result B) (g : B -> result C) :
  bind (bind r f) g = bind r (fun x => bind (f x) g).
Proof. by destruct r. Qed.

Lemma feed_chars_app (self : reader) (a b : string) :
  feed_chars self (a ++ b) = (s <-! feed_chars self a ;; feed_chars s b).
Proof.
  revert self. induction a as [|c a IH]; intros self; [done|].
  rewrite str_app_cons. simpl.
  destruct (parse_process_char self (Char c)) as [s1|e]; simpl; [apply IH|done].
Qed.

Lemma feed_chars_snoc (self : reader) (a : string) (c : ascii) :
  feed_chars self (reverse (String c a))
  = (s <-! feed_chars self (reverse a) ;; parse_process_char s (Char c)).
Proof.
  rewrite str_reverse_cons, feed_chars_app.
  destruct (feed_chars self (reverse a)) as [s|e]; simpl; [|done].
  by destruct (parse_process_char s (Char c)).
Qed.

Lemma read_rows_scan (text : string) :
  forall (cur : string) (self : reader),
    text <> "" \/ cur = "" ->
    read_rows self (readlines_from cur text)
    = (s <-! feed_chars self (reverse cur) ;; scan s text).
Proof.
  induction text as [|c text IH]; intros cur self Hc.
  - destruct Hc as [?| ->]; done.
  - cbn [readlines_from scan].
    destruct (ends_line c text) eqn:El.
    + cbn [read_rows]. unfold feed_line. rewrite feed_chars_snoc.
      rewrite !bind_assoc.
      destruct (feed_chars self (reverse cur)) as [s|e]; simpl; [|done].
      destruct (parse_process_char s (Char c)) as [s1|e]; simpl; [|done].
      destruct (parse_process_char s1 EOL) as [s2|e]; simpl; [|done].
      case_bool_decide.
      * by rewrite (IH "" parse_reset) by by right.
      * by rewrite (IH "" s2) by by right.
    + destruct text as [|c' text'].
      * cbn [readlines_from read_rows is_empty orb]. unfold feed_line.
        rewrite feed_chars_snoc, !bind_assoc.
        destruct (feed_chars self (reverse cur)) as [s|e]; simpl; [|done].
        destruct (parse_process_char s (Char c)) as [s1|e]; simpl; [|done].
        destruct (parse_process_char s1 EOL) as [s2|e]; simpl; [|done].
        by case_bool_decide.
      * rewrite (IH (String c cur) self) by by left.
        rewrite feed_chars_snoc, bind_assoc.
        destruct (feed_chars self (reverse cur)) as [s|e]; simpl; [|done].
        done.
Qed.

Lemma read_scan (text : string) : read text = scan parse_reset text.
Proof.
  unfold read, readlines. rewrite read_rows_scan by by right. done.
Qed.

Lemma copy_field_spec (f : string) (q : bool) :
  copy_field f q = (escape f, q || must_quote f).
Proof.
  revert q. induction f as [|c f IH]; intros q; simpl.
  - by rewrite orb_false_r.
  - rewrite IH. destruct (special c); simpl.
    + by rewrite orb_true_r.
    + done.
Qed.

Lemma escape_plain (f : string) : must_quote f = false -> escape f = f.
Proof.
  induction f as [|c f IH]; simpl; [done|].
  intros [Hc Hf]%orb_false_iff. rewrite IH by done.
  unfold special in Hc. apply orb_false_iff in Hc as [Hc _].
  apply orb_false_iff in Hc as [_ Hc]. by rewrite Hc.
Qed.

Lemma join_append_spec (w : writer) (f : string) :
  join_append w (Some f) false
  = {| rec := rec w
              ++ (if (0 <? num_fields w)%nat then String delimiter "" else "")
              ++ encode f;
       num_fields := S (num_fields w) |}.
Proof.
  unfold join_append, encode. simpl. rewrite copy_field_spec. simpl.
  destruct (must_quote f) eqn:E; [done|]. by rewrite escape_plain.
Qed.

Lemma fold_join_append (fs : list string) (w : writer) :
  (0 < num_fields w)%nat ->
  fold_left (fun w field => join_append w (Some field) false) fs w
  = {| rec := rec w ++ encode_more fs;
       num_fields := (num_fields w + length fs)%nat |}.
Proof.
  revert w. induction fs as [|f fs IH]; intros w Hw; simpl.
  - rewrite str_app_nil_r, Nat.add_0_r. by destruct w.
  - rewrite IH, join_append_spec by (rewrite join_append_spec; simpl; lia).
    simpl. destruct (Nat.ltb_spec 0 (num_fields w)); [|lia].
    f_equal; [|lia]. by rewrite <- !str_app_assoc.
Qed.

Lemma length_app_str (a b : string) :
  String.length (a ++ b) = (String.length a + String.length b)%nat.
Proof.
  induction a as [|c a IH]; [done|]. rewrite str_app_cons. simpl. by rewrite IH.
Qed.

Lemma encode_empty (f : string) : encode f = "" -> f = "".
Proof.
  unfold encode. destruct (must_quote f); [done|]. done.
Qed.

(** The line of a row, case by case. *)
Lemma writerow_spec (row : list string) :
  writerow row
  = match row with
    | [] => lineterminator
    | [""] => String quotechar (String quotechar "") ++ lineterminator
    | f :: fs => encode f ++ encode_more fs ++ lineterminator
    end.
Proof.
  unfold writerow. destruct row as [|f fs]; [done|].
  cbn [fold_left]. rewrite join_append_spec.
  rewrite fold_join_append by (simpl; lia).
  cbn [rec num_fields join_reset Nat.ltb Nat.leb].
  rewrite !str_app_nil_l.
  destruct (String.length (encode f ++ encode_more fs) =? 0)%nat eqn:El.
  - apply Nat.eqb_eq in El. rewrite length_app_str in El.
    assert (Hf : encode f = "") by (destruct (encode f); [done|simpl in El; lia]).
    assert (Hfs : fs = []).
    { destruct fs as [|g gs]; [done|]. rewrite Hf in El. simpl in El. lia. }
    apply encode_empty in Hf. subst. done.
  - replace ((0 <? 1 + length fs)%nat) with true by done.
    cbn [andb]. cbn [rec].
    destruct f as [|c f]; [|by rewrite str_app_assoc].
    destruct fs as [|g gs]; [done|]. by rewrite str_app_assoc.
Qed.

Lemma not_special (c : ascii) :
  special c = false ->
  Ascii.eqb c delimiter = false /\ Ascii.eqb c quotechar = false
  /\ is_newline c = false.
Proof.
  unfold special. intros [[H1 H2]%orb_false_iff H3]%orb_false_iff. done.
Qed.

Lemma ends_line_newline (c : ascii) (rest : string) :
  is_newline c = false -> ends_line c rest = false.
Proof.
  unfold is_newline, ends_line. intros [-> ->]%orb_false_iff. done.
Qed.

Lemma is_empty_app (a b : string) : is_empty b = false -> is_empty (a ++ b) = false.
Proof. destruct a; [done|]. by rewrite str_app_cons. Qed.

(** A character that ends no record, in the middle of the text. *)
Lemma scan_inner (self self1 : reader) (c : ascii) (rest : string) :
  parse_process_char self (Char c) = Ok self1 ->
  ends_line c rest = false -> is_empty rest = false ->
  scan self (String c rest) = scan self1 rest.
Proof. intros H He Hr. cbn [scan]. by rewrite H, He, Hr. Qed.

(** Inside the quotes every character but the quote is data, line ends
    included. *)
Lemma scan_in_quotes (acc : string) (flds : list string) (c : ascii)
    (rest : string) :
  Ascii.eqb c quotechar = false -> is_empty rest = false ->
  scan (mk IN_QUOTED_FIELD acc flds) (String c rest)
  = scan (mk IN_QUOTED_FIELD (acc ++ String c "") flds) rest.
Proof.
  intros Hq Hr. cbn [scan]. unfold parse_process_char at 1.
  cbn [state mk]. rewrite Hq. cbn [bind]. rewrite Hr, orb_false_r.
  destruct (ends_line c rest); done.
Qed.

Lemma scan_quoted_body (f : string) :
  forall (acc : string) (flds : list string) (rest : string),
    is_empty rest = false ->
    scan (mk IN_QUOTED_FIELD acc flds) (escape f ++ rest)
    = scan (mk IN_QUOTED_FIELD (acc ++ f) flds) rest.
Proof.
  induction f as [|c f IH]; intros acc flds rest Hr.
  - by rewrite str_app_nil_r.
  - cbn [escape]. destruct (Ascii.eqb c quotechar) eqn:Hq.
    + apply Ascii.eqb_eq in Hq as ->. rewrite !str_app_cons.
      rewrite (scan_inner _ (mk QUOTE_IN_QUOTED_FIELD acc flds)); try done.
      rewrite (scan_inner _ (mk IN_QUOTED_FIELD (acc ++ String quotechar "") flds));
        try done.
      * rewrite IH by done. by rewrite <- str_app_assoc.
      * by apply is_empty_app.
    + rewrite str_app_cons, scan_in_quotes; [|done|by apply is_empty_app].
      rewrite IH by done. by rewrite <- str_app_assoc.
Qed.

Lemma scan_plain_body (f : string) :
  forall (acc : string) (flds : list string) (rest : string),
    must_quote f = false -> is_empty rest = false ->
    scan (mk IN_FIELD acc flds) (f ++ rest)
    = scan (mk IN_FIELD (acc ++ f) flds) rest.
Proof.
  induction f as [|c f IH]; intros acc flds rest Hf Hr.
  - by rewrite str_app_nil_r.
  - simpl in Hf. apply orb_false_iff in Hf as [Hc Hf].
    destruct (not_special c Hc) as (Hd & Hq & Hn).
    rewrite str_app_cons.
    rewrite (scan_inner _ (mk IN_FIELD (acc ++ String c "") flds)).
    + rewrite IH by done. by rewrite <- str_app_assoc.
    + unfold parse_process_char. cbn [state mk ends_record]. by rewrite Hn, Hd.
    + by apply ends_line_newline.
    + by apply is_empty_app.
Qed.

Lemma scan_field (st : parser_state) (f : string) (flds : list string)
    (rest : string) :
  starting st -> is_empty rest = false ->
  scan (mk st "" flds) (encode f ++ rest) = scan (after_field st f flds) rest.
Proof.
  intros Hst Hr. unfold encode, after_field.
  destruct (must_quote f) eqn:Hm.
  - rewrite !str_app_cons, <- str_app_assoc.
    rewrite (scan_inner _ (mk IN_QUOTED_FIELD "" flds)).
    + rewrite scan_quoted_body by done. rewrite str_app_nil_l, str_app_cons.
      by rewrite (scan_inner _ (mk QUOTE_IN_QUOTED_FIELD f flds)).
    + by destruct Hst as [-> | ->].
    + done.
    + by apply is_empty_app.
  - destruct f as [|c f]; [done|].
    simpl in Hm. apply orb_false_iff in Hm as [Hc Hf].
    destruct (not_special c Hc) as (Hd & Hq & Hn).
    rewrite str_app_cons.
    rewrite (scan_inner _ (mk IN_FIELD (String c "") flds)).
    + by rewrite scan_plain_body.
    + destruct Hst as [-> | ->]; unfold parse_process_char, start_field;
        cbn [state mk ends_record set_state]; by rewrite Hn, ?Hq, ?Hd.
    + by apply ends_line_newline.
    + by apply is_empty_app.
Qed.

(** After a field, the delimiter saves it and starts the next. *)
Lemma scan_delimiter (st : parser_state) (f : string) (flds : list string)
    (rest : string) :
  starting st -> is_empty rest = false ->
  scan (after_field st f flds) (String delimiter rest)
  = scan (mk START_FIELD "" (flds ++ [f])) rest.
Proof.
  intros Hst Hr. apply scan_inner; [|done|done].
  unfold after_field. destruct (must_quote f); [done|].
  destruct f as [|c f]; [|done]. by destruct Hst as [-> | ->].
Qed.

(** After a field that consumed a character, or that follows a delimiter,
    the line terminator saves it and ends the record. *)
Lemma scan_terminator (st : parser_state) (f : string) (flds : list string)
    (rest : string) :
  state (after_field st f flds) <> START_RECORD ->
  starting st ->
  scan (after_field st f flds) (lineterminator ++ rest)
  = (rows <-! scan parse_reset rest ;; Ok ((flds ++ [f])%list :: rows)).
Proof.
  intros Hne Hst.
  assert (H1 : parse_process_char (after_field st f flds) (Char CR)
               = Ok (mk EAT_CRNL "" (flds ++ [f]))).
  { unfold after_field in *. destruct (must_quote f); [done|].
    destruct f as [|c f]; [|done].
    destruct Hst as [-> | ->]; [done|done]. }
  change (lineterminator ++ rest) with (String CR (String LF rest)).
  rewrite (scan_inner _ _ _ _ H1); [|done|done].
  cbn [scan]. unfold parse_process_char at 1. cbn [state mk is_newline].
  replace (ends_line LF rest) with true by done. done.
Qed.

Lemma scan_more (fs : list string) :
  forall (st : parser_state) (f : string) (flds : list string) (rest : string),
    starting st ->
    (state (after_field st f flds) = START_RECORD -> fs <> []) ->
    scan (after_field st f flds) (encode_more fs ++ lineterminator ++ rest)
    = (rows <-! scan parse_reset rest ;; Ok ((flds ++ f :: fs)%list :: rows)).
Proof.
  induction fs as [|g gs IH]; intros st f flds rest Hst Hne.
  - rewrite str_app_nil_l. apply scan_terminator; [|done].
    intros H. by apply Hne in H.
  - cbn [encode_more]. rewrite !str_app_cons, <- !str_app_assoc.
    rewrite scan_delimiter; [|done|by apply is_empty_app, is_empty_app].
    rewrite (scan_field START_FIELD); [|by right|by apply is_empty_app].
    rewrite IH; [|by right|].
    + by rewrite <- app_assoc.
    + unfold after_field. destruct (must_quote g); [done|]. by destruct g.
Qed.

Lemma scan_row (row : list string) (rest : string) :
  scan parse_reset (writerow row ++ rest)
  = (rows <-! scan parse_reset rest ;; Ok (row :: rows)).
Proof.
  rewrite writerow_spec.
  assert (Hgen : forall f fs, (f = "" -> fs <> []) ->
    scan parse_reset ((encode f ++ encode_more fs ++ lineterminator) ++ rest)
    = (rows <-! scan parse_reset rest ;; Ok ((f :: fs) :: rows))).
  { intros f fs Hf. rewrite <- !str_app_assoc.
    change parse_reset with (mk START_RECORD "" []) at 1.
    rewrite scan_field; [|by left|by apply is_empty_app].
    rewrite scan_more; [done|by left|].
    unfold after_field. destruct (must_quote f); [done|].
    destruct f; [auto|done]. }
  destruct row as [|f fs]; [done|].
  destruct f as [|c f]; [|by apply Hgen].
  destruct fs as [|g gs]; [done|]. by apply Hgen.
Qed.

Lemma scan_rows (rows : list (list string)) :
  scan parse_reset (rows_text rows) = Ok rows.
Proof.
  induction rows as [|row rows IH]; [done|].
  cbn [rows_text]. by rewrite scan_row, IH.
Qed.

(** Reading back what the writer wrote gives the rows. *)
Lemma read_rows_text (rows : list (list string)) :
  read (rows_text rows) = Ok rows.
Proof. rewrite read_scan. apply scan_rows. Qed.

Lemma dict_to_list_within (fieldnames : list string) (r : record) :
  within fieldnames r -> dict_to_list fieldnames r = Ok (row_of fieldnames r).
Proof.
  intros H. unfold dict_to_list. rewrite bool_decide_eq_true_2; [done|].
  unfold within in H. set_solver.
Qed.

Lemma dict_to_list_extra (fieldnames : list string) (r : record) (key : string) :
  key ∈ dom r -> key ∉ fieldnames ->
  exists msg, dict_to_list fieldnames r = Raise (PyException "ValueError" msg).
Proof.
  intros Hin Hout. unfold dict_to_list.
  rewrite bool_decide_eq_false_2; [eauto|].
  intros He. assert (key ∈ dom r ∖ list_to_set (C:=gset string) fieldnames)
    by set_solver. set_solver.
Qed.

Lemma header_lookup (fieldnames : list string) (key : string) :
  key ∈ fieldnames ->
  (list_to_map (zip fieldnames fieldnames) : gmap string string) !! key
  = Some key.
Proof.
  induction fieldnames as [|a l IH]; [by intros ?%elem_of_nil|].
  intros Hin. cbn [zip zip_with list_to_map foldr uncurry fst snd].
  destruct (decide (a = key)) as [->|Hne].
  - apply lookup_insert_eq.
  - rewrite lookup_insert_ne by done. apply IH.
    apply elem_of_cons in Hin as [?|?]; [congruence|done].
Qed.

Lemma header_row (fieldnames : list string) :
  dict_to_list fieldnames (list_to_map (zip fieldnames fieldnames))
  = Ok fieldnames.
Proof.
  rewrite dict_to_list_within.
  - f_equal. unfold row_of. rewrite <- (list_fmap_id fieldnames) at 2.
    apply list_fmap_ext. intros i key Hi.
    rewrite header_lookup; [done|]. by eapply list_elem_of_lookup_2.
  - unfold within. rewrite dom_list_to_map_L.
    rewrite fst_zip by done. done.
Qed.

Lemma writeheader_spec (fieldnames : list string) :
  writeheader fieldnames = Ok (writerow fieldnames).
Proof. unfold writeheader, dict_writerow. by rewrite header_row. Qed.

Lemma rows_text_app (a b : list (list string)) :
  rows_text (a ++ b) = rows_text a ++ rows_text b.
Proof.
  induction a as [|row a IH]; [done|].
  cbn [rows_text app]. by rewrite IH, str_app_assoc.
Qed.

Section save_to_csv.

Variables (output_file : string) (fieldnames : list string).


Lemma write_rows_extra (before : list record) (r : record)
    (after : list record) (key : string) :
  forall (text : string) (fs : files),
    Forall (within fieldnames) before ->
    key ∈ dom r -> key ∉ fieldnames ->
    exists msg,
      write_rows output_file fieldnames (before ++ r :: after)
                 (<[output_file := text]> fs)
      = (<[output_file := text ++ rows_text (row_of fieldnames <$> before)]> fs,
         Raise (PyException "ValueError" msg)).
Proof.
  induction before as [|r0 rs IH]; intros text fs Hall Hin Hout.
  - destruct (dict_to_list_extra fieldnames r key Hin Hout) as [msg Hmsg].
    exists msg. cbn [app write_rows fmap list_fmap rows_text].
    unfold dict_writerow. rewrite Hmsg. cbn [bind]. by rewrite str_app_nil_r.
  - apply Forall_cons in Hall as [Hr Hrs].
    destruct (IH (text ++ writerow (row_of fieldnames r0)) fs Hrs Hin Hout)
      as [msg Hmsg].
    exists msg. cbn [app write_rows]. unfold dict_writerow.
    rewrite dict_to_list_within by done. cbn [bind].
    unfold write. rewrite alter_insert_eq, Hmsg.
    by rewrite <- str_app_assoc.
Qed.


(** C10.  When a record has a key that is not among the field names,
    [save_to_csv] raises [ValueError] at that record instead of dropping the
    key.  The output file then holds the header and the rows of the records
    before it, whatever it held earlier: it was truncated and written, and it
    differs from the file system before the call unless the file already held
    that very text. *)
Theorem save_to_csv_extra_field (before : list record) (r : record)
    (after : list record) (key : string) (fs : files) :
  Forall (within fieldnames) before ->
  key ∈ dom r -> key ∉ fieldnames ->
  let written := rows_text (fieldnames :: (row_of fieldnames <$> before)) in
  exists msg,
    save_to_csv output_file fieldnames (before ++ r :: after) fs
    = (<[output_file := written]> fs, Raise (PyException "ValueError" msg))
    /\ Csv.read written = Ok (fieldnames :: (row_of fieldnames <$> before))
    /\ (fs !! output_file <> Some written ->
        (save_to_csv output_file fieldnames (before ++ r :: after) fs).1 <> fs).
Proof.
  intros Hall Hin Hout written.
  destruct (write_rows_extra before r after key (writerow fieldnames) fs
              Hall Hin Hout) as [msg Hmsg].
  assert (Hsave : save_to_csv output_file fieldnames (before ++ r :: after) fs
    = (<[output_file := written]> fs, Raise (PyException "ValueError" msg))).
  { unfold save_to_csv. rewrite writeheader_spec.
    unfold write. rewrite alter_insert_eq. apply Hmsg. }
  exists msg. split; [done|]. split; [apply read_rows_text|].
  intros Hold. rewrite Hsave. cbn [fst]. intros Heq.
  apply Hold. rewrite <- Heq. apply lookup_insert_eq.
Qed.

End save_to_csv.


Lemma save_to_csv_extra_field_example :
  exists msg,
    save_to_csv "out.csv" Config.default_fields
                (demo_records ++ [demo_extra]) ∅
    = (<["out.csv" :=
           rows_text (Config.default_fields
                      :: (row_of Config.default_fields <$> demo_records))]> ∅,
       Raise (PyException "ValueError" msg))
    /\ Csv.read (rows_text (Config.default_fields
                            :: (row_of Config.default_fields <$> demo_records)))
       = Ok (Config.default_fields
             :: (row_of Config.default_fields <$> demo_records))
    /\ ((∅ : files) !! "out.csv"
        <> Some (rows_text (Config.default_fields
                            :: (row_of Config.default_fields <$> demo_records)))
        -> (save_to_csv "out.csv" Config.default_fields
                        (demo_records ++ [demo_extra]) ∅).1 <> ∅).
Proof.
  apply (save_to_csv_extra_field "out.csv" Config.default_fields demo_records
           demo_extra [] "phone" ∅).
  - unfold within; repeat (constructor; [by apply (bool_decide_unpack _)|]); constructor.
  - by apply (bool_decide_unpack _).
  - by apply (bool_decide_unpack _).
Defined.

End csv.

(** ** The cases of the test suite *)

Section tests.

Import Extractor Processor.

(** test_extract_all_info_json_decode_error *)
Example test_json_decode_error :
  extract_all_info (test_world (Returned "PNG") "Invalid JSON") demo_config
                   "/tmp/test.png"
  = Raise (OpenAIAPIError "JSON parse error: /tmp/test.png"
             (Some (JSONDecodeError "Invalid JSON"))).
Proof. reflexivity. Qed.

(** test_extract_all_info_general_error *)
Example test_general_error :
  extract_all_info (test_world (Failed "Exception" "File read error") "[]")
                   demo_config "/tmp/test.png"
  = Raise (ImageProcessingError "/tmp/test.png"
             (PyException "Exception" "File read error")).
Proof. reflexivity. Qed.

(** test_extract_all_info_empty_response *)
Example test_empty_response :
  extract_all_info (test_world (Returned "PNG") "[]") demo_config
                   "/tmp/test.png"
  = Ok [].
Proof. reflexivity. Qed.

(** test_process_images_with_failures and test_process_images_empty_results *)
Example test_process_images_with_failures :
  let run := process_images test_extractor Config.default_fields false false
               ["/tmp/test1.png"; "/tmp/test2.png"; "/tmp/test3.png"]
               [Ok [test_record];
                Raise (PyException "Exception" "Processing error"); Ok []] in
  (total_images run.1.1, successful_images run.1.1, failed_images run.1.1,
   total_records run.1.1, all_results run.1.1)
  = (3%Z, 1%Z, ["test2.png"; "test3.png"], 1%Z, [test_record]).
Proof. reflexivity. Qed.

(** test_save_to_csv *)
Example test_save_to_csv :
  (save_to_csv "output.csv" Config.default_fields [test_row] ∅).1
    !! "output.csv"
  = Some ("filename,email,firstname,name" ++ Str.CRLF
          ++ "test.png,test@example.com,John,John Doe" ++ Str.CRLF).
Proof. vm_compute. reflexivity. Qed.

End tests.

(** ** More on the processing loop *)

Section process_images_more.

Import Processor.

Context {W : Type}.
Variable extractor : string -> W -> W * result (list record).
Variable fields : list string.

Lemma progress_calls_app (a b : list event) :
  progress_calls (a ++ b) = (progress_calls a ++ progress_calls b)%list.
Proof. apply omap_app. Qed.

Lemma progress_calls_samples (j : nat) (records : list record) :
  progress_calls (sample_lines fields j records) = [].
Proof.
  revert j. induction records as [|r rs IH]; intros j; [done|]. apply IH.
Qed.

Lemma progress_calls_log (records : list record) :
  progress_calls (log_sample_records fields records) = [].
Proof.
  unfold log_sample_records.
  rewrite progress_calls_app, progress_calls_samples.
  by destruct (3 <? length records)%nat.
Qed.

Lemma progress_calls_when (b : bool) (evs : list event) :
  progress_calls evs = [] -> progress_calls (when b evs) = [].
Proof. by destruct b. Qed.

Lemma body_progress (verbose cb : bool) (total i : nat) (image_file : string)
    (st : locals) :
  progress_calls
    (l_events (body extractor fields verbose cb total i image_file st))
  = (progress_calls (l_events st)
     ++ if cb then [(i, total, PathLib.name image_file)] else [])%list.
Proof.
  unfold body. destruct (extractor image_file (l_world st)) as [w' out].
  assert (Hcb : progress_calls
                  (when cb [Progress i total (PathLib.name image_file)])
                = if cb then [(i, total, PathLib.name image_file)] else [])
    by by destruct cb.
  destruct out as [[|r rs]|e]; cbn [l_events];
    rewrite !progress_calls_app, Hcb, !progress_calls_when, ?app_nil_r;
    try done.
  cbn [progress_calls omap]. apply progress_calls_log.
Qed.

Lemma loop_progress (verbose cb : bool) (total : nat)
    (image_files : list string) :
  forall (i : nat) (st : locals),
    progress_calls
      (l_events (loop extractor fields verbose cb total i image_files st))
    = (progress_calls (l_events st)
       ++ if cb then enumerate_names total i image_files else [])%list.
Proof.
  induction image_files as [|f files IH]; intros i st; cbn [loop].
  - destruct cb; by rewrite app_nil_r.
  - rewrite IH, body_progress. destruct cb; by rewrite <- app_assoc.
Qed.

(** X1.  A progress callback is called once for each image, in order, with
    the running index from 1, the number of images and the base name of the
    image, whatever the extractor did for it and whether or not the run is
    verbose; without a callback there is no such call. *)
Theorem process_images_progress (verbose cb : bool)
    (image_files : list string) (w : W) :
  progress_calls
    (process_images extractor fields verbose cb image_files w).1.2
  = if cb then enumerate_names (length image_files) 1 image_files else [].
Proof.
  unfold process_images. cbn [fst snd]. by rewrite loop_progress.
Qed.



Lemma process_images_run (verbose cb : bool) (image_files : list string)
    (w : W) :
  let outs := outcomes extractor image_files w in
  let run := process_images extractor fields verbose cb image_files w in
  run.1.1
  = {| total_images := Z.of_nat (length image_files);
       successful_images :=
         Z.of_nat (length image_files)
         - Z.of_nat (length (failed_names image_files outs));
       failed_images := failed_names image_files outs;
       total_records := Z.of_nat (length (concat (records_of <$> outs)));
       all_results := concat (records_of <$> outs) |}
  /\ run.2 = world_after extractor image_files w.
Proof.
  intros outs run.
  pose proof (loop_spec extractor fields verbose cb (length image_files)
                image_files 1
                {| l_all_results := []; l_total_records := 0;
                   l_failed_images := []; l_events := []; l_world := w |})
    as (Hf & Ha & Ht & Hw).
  simpl in Hf, Ha, Ht, Hw. fold outs in Hf, Ha, Ht.
  subst run. unfold process_images. cbn [fst snd].
  by rewrite Hf, Ha, Ht, Hw.
Qed.


Lemma outcomes_app (l1 l2 : list string) (w : W) :
  outcomes extractor (l1 ++ l2) w
  = (outcomes extractor l1 w
     ++ outcomes extractor l2 (world_after extractor l1 w))%list.
Proof.
  revert w. induction l1 as [|f l1 IH]; intros w; [done|].
  cbn [app outcomes world_after].
  destruct (extractor f w) as [w' out]. cbn [fst]. by rewrite IH.
Qed.

Lemma world_after_app (l1 l2 : list string) (w : W) :
  world_after extractor (l1 ++ l2) w
  = world_after extractor l2 (world_after extractor l1 w).
Proof.
  revert w. induction l1 as [|f l1 IH]; intros w; [done|].
  cbn [app world_after]. apply IH.
Qed.

Lemma failed_names_app (l1 l2 : list string)
    (o1 o2 : list (result (list record))) :
  length l1 = length o1 ->
  failed_names (l1 ++ l2) (o1 ++ o2)
  = (failed_names l1 o1 ++ failed_names l2 o2)%list.
Proof.
  revert o1. induction l1 as [|f l1 IH]; intros [|o o1] Hl; try done.
  cbn [app failed_names]. rewrite IH by (simpl in Hl; lia).
  by rewrite <- app_assoc.
Qed.

(** X3.  A batch can be split: processing [l1 ++ l2] gives the failed
    names, the records and the counts of processing [l1] followed by those
    of processing [l2] in the world the first run left, and ends in the same
    world. *)
Theorem process_images_app (verbose cb : bool) (l1 l2 : list string) (w : W) :
  let run := process_images extractor fields verbose cb (l1 ++ l2) w in
  let run1 := process_images extractor fields verbose cb l1 w in
  let run2 := process_images extractor fields verbose cb l2 run1.2 in
  failed_images run.1.1
  = (failed_images run1.1.1 ++ failed_images run2.1.1)%list
  /\ all_results run.1.1
     = (all_results run1.1.1 ++ all_results run2.1.1)%list
  /\ total_images run.1.1 = total_images run1.1.1 + total_images run2.1.1
  /\ successful_images run.1.1
     = successful_images run1.1.1 + successful_images run2.1.1
  /\ total_records run.1.1 = total_records run1.1.1 + total_records run2.1.1
  /\ run.2 = run2.2.
Proof.
  intros run run1 run2.
  destruct (process_images_run verbose cb (l1 ++ l2) w) as [Hr Hw].
  destruct (process_images_run verbose cb l1 w) as [Hr1 Hw1].
  destruct (process_images_run verbose cb l2 run1.2) as [Hr2 Hw2].
  subst run run1 run2. rewrite Hr, Hr1, Hr2, Hw, Hw2, Hw1.
  cbn [total_images successful_images failed_images total_records
       all_results].
  rewrite outcomes_app, failed_names_app
    by (symmetry; apply outcomes_length).
  rewrite fmap_app, concat_app, !length_app, world_after_app.
  repeat split; lia.
Qed.

(** X4.  The result and the world after [process_images] do not depend on
    the verbosity flag nor on the presence of a callback, and a run that is
    neither verbose nor given a callback hands nothing to the logger. *)
Theorem process_images_flags (verbose cb : bool)
    (image_files : list string) (w : W) :
  let run := process_images extractor fields verbose cb image_files w in
  let quiet := process_images extractor fields false false image_files w in
  run.1.1 = quiet.1.1 /\ run.2 = quiet.2 /\ quiet.1.2 = [].
Proof.
  intros run quiet.
  destruct (process_images_run verbose cb image_files w) as [Hr Hw].
  destruct (process_images_run false false image_files w) as [Hr' Hw'].
  fold run in Hr, Hw. fold quiet in Hr', Hw'.
  split; [|split; [congruence|]].
  - congruence.
  - subst quiet. unfold process_images. cbn [fst snd].
    generalize 1%nat. generalize (length image_files).
    assert (Hq : forall files total i st, l_events st = [] ->
      l_events (loop extractor fields false false total i files st) = []).
    { induction files as [|f files IH]; intros total i st Hst; [done|].
      cbn [loop]. apply IH. unfold body.
      destruct (extractor f (l_world st)) as [w' out].
      destruct out as [[|r rs]|e]; cbn [l_events when]; by rewrite Hst. }
    intros total i. by apply Hq.
Qed.

End process_images_more.

(** ** More on the output file *)

Section save_to_csv_more.

Import Str Csv Processor.

Variables (output_file : string) (fieldnames : list string).

Lemma write_rows_written (results : list record) :
  forall (text : string) (fs : files),
    write_rows output_file fieldnames results (<[output_file := text]> fs)
    = (<[output_file := text ++ (rows_written fieldnames results).1]> fs,
       (rows_written fieldnames results).2).
Proof.
  induction results as [|r rs IH]; intros text fs; cbn [write_rows rows_written].
  - by rewrite str_app_nil_r.
  - destruct (dict_writerow fieldnames r) as [line|e].
    + unfold write. rewrite alter_insert_eq, IH.
      destruct (rows_written fieldnames rs) as [t res]. cbn [fst snd].
      by rewrite <- str_app_assoc.
    + cbn [fst snd]. by rewrite str_app_nil_r.
Qed.

Lemma save_to_csv_written (results : list record) (fs : files) :
  save_to_csv output_file fieldnames results fs
  = (<[output_file :=
         writerow fieldnames ++ (rows_written fieldnames results).1]> fs,
     (rows_written fieldnames results).2).
Proof.
  unfold save_to_csv. rewrite writeheader_spec. unfold write.
  by rewrite alter_insert_eq, write_rows_written.
Qed.


(** X5.  [save_to_csv] touches the output file only and overwrites it: every
    other file is as before, the output file exists afterwards, the outcome
    and the files afterwards do not depend on what the output file held or
    on whether it existed, and saving the same records again changes
    nothing. *)
Theorem save_to_csv_overwrites (results : list record) (fs : files) :
  let after := save_to_csv output_file fieldnames results fs in
  (forall path, path <> output_file -> after.1 !! path = fs !! path)
  /\ is_Some (after.1 !! output_file)
  /\ (forall fs' : files,
        (forall path, path <> output_file -> fs' !! path = fs !! path) ->
        save_to_csv output_file fieldnames results fs' = after)
  /\ save_to_csv output_file fieldnames results after.1 = after.
Proof.
  intros after. subst after. rewrite !save_to_csv_written. cbn [fst snd].
  split; [|split; [|split]].
  - intros path Hp. by rewrite lookup_insert_ne.
  - rewrite lookup_insert_eq. eauto.
  - intros fs' Hfs. rewrite save_to_csv_written. f_equal.
    apply map_eq. intros path. destruct (decide (output_file = path)) as [<-|Hne].
    + by rewrite !lookup_insert_eq.
    + rewrite !lookup_insert_ne by done. by apply Hfs.
  - by rewrite insert_insert_eq.
Qed.




End save_to_csv_more.

(** ** More on the extractor *)

Section extractor_more.

Import Str Extractor.






Lemma format_items_not_dict (image_path : string) (items : list json) :
  Exists (fun v => is_dict v = false) items ->
  format_items image_path items
  = Raise (PyException "AttributeError" "object has no attribute 'get'").
Proof.
  induction 1 as [v items Hv|v items _ IH]; cbn [format_items].
  - by destruct v.
  - destruct (format_item image_path v) as [r|e] eqn:Er; cbn [bind].
    + rewrite IH. reflexivity.
    + revert Er. destruct v; cbn; congruence.
Qed.

(** What [extract_all_info] does with the parsed value [v] of the cleaned
    text. *)
Lemma extract_all_info_parsed (w : World) (cfg : Config.t)
    (image_path text : string) (v : json) :
  cleaned_text w cfg image_path = Ok text ->
  json_loads w text = Some v ->
  extract_all_info w cfg image_path
  = match items <-! iterate v ;; format_items image_path items with
    | Ok records => Ok records
    | Raise e => Raise (ImageProcessingError image_path e)
    end.
Proof.
  intros Hc Hj. unfold extract_all_info, try_body, loads.
  rewrite Hc. cbn [bind]. rewrite Hj. cbn [bind].
  destruct (iterate v) as [items|e] eqn:Ei; cbn [bind].
  - destruct (format_items image_path items) as [rs|e] eqn:Ef; [done|].
    by rewrite (format_items_not_json _ _ _ Ef).
  - by rewrite (iterate_not_json _ _ Ei).
Qed.

(** X8.  When the cleaned text parses to something else than an array, the
    loop over the parsed value decides: an empty object and an empty string
    are iterated without any item and give no record and no error; a
    non-empty object or string fails at its first key or character with
    [AttributeError], and null, a boolean or a number with [TypeError], each
    wrapped in [ImageProcessingError]. *)
Theorem extract_all_info_not_array (w : World) (cfg : Config.t)
    (image_path text : string) (v : json) :
  cleaned_text w cfg image_path = Ok text ->
  json_loads w text = Some v ->
  match v with
  | JList _ => True
  | JDict entries =>
      extract_all_info w cfg image_path
      = if decide (entries = ∅) then Ok []
        else Raise (ImageProcessingError image_path
                      (PyException "AttributeError"
                         "object has no attribute 'get'"))
  | JStr s =>
      extract_all_info w cfg image_path
      = if decide (s = "") then Ok []
        else Raise (ImageProcessingError image_path
                      (PyException "AttributeError"
                         "object has no attribute 'get'"))
  | _ =>
      extract_all_info w cfg image_path
      = Raise (ImageProcessingError image_path
                 (PyException "TypeError" "object is not iterable"))
  end.
Proof.
  intros Hc Hj. rewrite (extract_all_info_parsed _ _ _ _ _ Hc Hj).
  destruct v as [| | | |s|items|entries]; try done.
  - destruct s as [|c s]; [done|]. by rewrite decide_False.
  - cbn [iterate bind]. case_decide as He.
    + subst. by rewrite map_to_list_empty.
    + destruct (map_to_list entries) as [|[k x] l] eqn:El.
      * by apply map_to_list_empty_iff in El.
      * done.
Qed.

(** A response that is a number instead of an array. *)
Lemma extract_all_info_not_array_example :
  extract_all_info (world_parsing "42" (JInt 42)) demo_config "images/a.png"
  = Raise (ImageProcessingError "images/a.png"
             (PyException "TypeError" "object is not iterable")).
Proof.
  apply (extract_all_info_not_array (world_parsing "42" (JInt 42))
           demo_config "images/a.png" "42" (JInt 42)); reflexivity.
Defined.

(** X9.  An array with an item that is not an object gives no record at
    all: the call raises [ImageProcessingError] around the
    [AttributeError] of that item, whatever the other items are. *)
Theorem extract_all_info_all_or_nothing (w : World) (cfg : Config.t)
    (image_path text : string) (items : list json) :
  cleaned_text w cfg image_path = Ok text ->
  json_loads w text = Some (JList items) ->
  Exists (fun v => is_dict v = false) items ->
  extract_all_info w cfg image_path
  = Raise (ImageProcessingError image_path
             (PyException "AttributeError" "object has no attribute 'get'")).
Proof.
  intros Hc Hj Hex. rewrite (extract_all_info_parsed _ _ _ _ _ Hc Hj).
  cbn [iterate bind]. by rewrite format_items_not_dict.
Qed.

(** An array whose second item is a number. *)
Lemma extract_all_info_all_or_nothing_example :
  extract_all_info
    (world_parsing "[{}, 1]" (JList [JDict ∅; JInt 1]))
    demo_config "images/a.png"
  = Raise (ImageProcessingError "images/a.png"
             (PyException "AttributeError" "object has no attribute 'get'")).
Proof.
  apply (extract_all_info_all_or_nothing
           (world_parsing "[{}, 1]" (JList [JDict ∅; JInt 1]))
           demo_config "images/a.png" "[{}, 1]" [JDict ∅; JInt 1]);
    [reflexivity | reflexivity |].
  apply Exists_cons_tl, Exists_cons_hd. reflexivity.
Defined.

End extractor_more.

(** ** More on the cleaning of the response *)

Section markers.

Import Str Extractor.

Variables (opening closing : string).
Hypothesis Hopening : opening = "" \/ opening = FENCE_JSON \/ opening = FENCE.
Hypothesis Hclosing : closing = "" \/ closing = FENCE.

Lemma not_space_head (s p : string) (a c : ascii) :
  first_char s = Some c -> (isspace c = true \/ c = a) ->
  forall b : ascii, isspace b = false -> b <> a ->
  startswith s (String b p) = false.
Proof.
  intros Hc Hc' b Hb Hba. apply (startswith_first_char _ _ _ c Hc).
  intros ->. destruct Hc' as [Hc'|Hc']; congruence.
Qed.

(** The markers around a stripped array [s], with spaces [a] and [b]
    inside them, are removed. *)
Lemma remove_markers_array (a b core rcore s : string) :
  blank a = true -> blank b = true ->
  s = String "[" core -> reverse s = String "]" rcore ->
  remove_markers (opening ++ (a ++ s ++ b) ++ closing) = s.
Proof.
  intros Ha Hb Hs Hr.
  set (inner := a ++ s ++ b).
  assert (Hhead : forall tail, exists c,
             first_char (inner ++ tail) = Some c
             /\ (isspace c = true \/ c = "["%char)).
  { intros tail. unfold inner. rewrite Hs.
    replace ((a ++ String "[" core ++ b) ++ tail)
      with (a ++ String "[" (core ++ b ++ tail))
      by (by rewrite <- !str_app_assoc).
    by apply first_char_padded. }
  assert (Hlast : exists c, first_char (reverse inner) = Some c
                            /\ (isspace c = true \/ c = "]"%char)).
  { unfold inner. rewrite !str_reverse_app, Hr, <- str_app_assoc.
    apply first_char_padded. by rewrite blank_reverse. }
  assert (Hstrip : strip inner = s).
  { apply strip_padded; [done|done|by rewrite Hs|by rewrite Hr]. }
  assert (E1 : forall p, startswith (inner ++ closing) (String "`" p) = false).
  { intros p. destruct (Hhead closing) as (c & Hc & Hc').
    by apply (not_space_head _ _ _ _ Hc Hc'). }
  assert (E2 : startswith (inner ++ closing) "json" = false).
  { destruct (Hhead closing) as (c & Hc & Hc').
    by apply (not_space_head _ _ _ _ Hc Hc'). }
  pose proof Hopening as Ho. pose proof Hclosing as Hc.
  unfold FENCE_JSON, FENCE in Ho, Hc.
  unfold remove_markers, FENCE_JSON, FENCE. cbv zeta.
  assert (E3 : (if endswith (inner ++ closing) "```"
                then drop_end 3 (inner ++ closing) else inner ++ closing)
               = inner).
  { destruct Hc as [-> | ->].
    - rewrite str_app_nil_r. unfold endswith.
      destruct Hlast as (c & Hc & Hc').
      change (reverse "```") with "```".
      by rewrite (not_space_head _ _ _ _ Hc Hc').
    - rewrite endswith_app. apply (drop_end_app inner "```"). }
  destruct Ho as [-> | [-> | ->]].
  - change ("" ++ inner ++ closing) with (inner ++ closing).
    by rewrite !E1, E3.
  - rewrite (startswith_app (inner ++ closing) "```json").
    replace (drop 7 ("```json" ++ inner ++ closing)) with (inner ++ closing)
      by (symmetry; apply (str_drop_app "```json")).
    by rewrite E1, E3.
  - change (startswith ("```" ++ inner ++ closing) "```json")
      with (startswith (inner ++ closing) "json").
    rewrite E2, (startswith_app (inner ++ closing) "```").
    replace (drop 3 ("```" ++ inner ++ closing)) with (inner ++ closing)
      by (symmetry; apply (str_drop_app "```")).
    by rewrite E3.
Qed.

Variables (ws1 ws2 ws3 ws4 t : string).
Hypothesis Hws1 : blank ws1 = true.
Hypothesis Hws2 : blank ws2 = true.
Hypothesis Hws3 : blank ws3 = true.
Hypothesis Hws4 : blank ws4 = true.
Hypothesis Ht : json_array_text t = true.

(** X10.  The fences are optional one by one: a JSON array that comes with
    an opening fence only, a closing fence only, both or none, and with
    whitespace anywhere around the fences, is cleaned to the stripped
    array. *)
Theorem remove_markers_optional :
  remove_markers (strip (wrapped opening closing ws1 ws2 ws3 ws4 t))
  = strip t.
Proof.
  pose proof Ht as Ht'.
  apply andb_true_iff in Ht' as [Hs He].
  apply startswith_cons_inv in Hs as [core Hcore].
  apply endswith_char_inv in He as [rcore Hrcore].
  destruct (strip_decompose t) as (w1 & w2 & Hw1 & Hw2 & Et).
  set (a := if decide (opening = "") then "" else ws2 ++ w1).
  set (b := if decide (closing = "") then "" else w2 ++ ws3).
  assert (Ha : blank a = true).
  { unfold a. case_decide; [done|]. by rewrite blank_app, Hws2, Hw1. }
  assert (Hb : blank b = true).
  { unfold b. case_decide; [done|]. by rewrite blank_app, Hw2, Hws3. }
  assert (Hstrip : strip (wrapped opening closing ws1 ws2 ws3 ws4 t)
                   = opening ++ (a ++ strip t ++ b) ++ closing).
  { unfold wrapped. rewrite Et at 1.
    set (l := if decide (opening = "") then ws1 ++ ws2 ++ w1 else ws1).
    set (r := if decide (closing = "") then w2 ++ ws3 ++ ws4 else ws4).
    replace (ws1 ++ opening ++ ws2 ++ (w1 ++ strip t ++ w2)
             ++ ws3 ++ closing ++ ws4)
      with (l ++ (opening ++ (a ++ strip t ++ b) ++ closing) ++ r).
    2:{ unfold l, r, a, b.
        destruct Hopening as [-> | [-> | ->]], Hclosing as [-> | ->];
          repeat (case_decide; try done);
          rewrite ?str_app_nil_l, ?str_app_nil_r, <- ?str_app_assoc;
          try done; rewrite ?str_app_nil_r; done. }
    apply strip_padded.
    - unfold l. case_decide; [|done].
      by rewrite !blank_app, Hws1, Hws2, Hw1.
    - unfold r. case_decide; [|done].
      by rewrite !blank_app, Hw2, Hws3, Hws4.
    - unfold a. destruct Hopening as [-> | [-> | ->]]; try done.
      rewrite decide_True by done. by rewrite Hcore.
    - rewrite !str_reverse_app. unfold b.
      destruct Hclosing as [-> | ->]; try done.
      rewrite decide_True by done. by rewrite Hrcore. }
  rewrite Hstrip. by apply (remove_markers_array a b core rcore).
Qed.

End markers.

(** A response that opens a fence and never closes it. *)
Lemma remove_markers_optional_example :
  Extractor.remove_markers
    (Str.strip (wrapped Extractor.FENCE_JSON "" "" Extractor.NL "" " "
                        array_example))
  = array_example.
Proof.
  apply (remove_markers_optional Extractor.FENCE_JSON "");
    [by right; left | by left | reflexivity..].
Defined.

(** ** More on the image folder *)

Section image_folder_more.

Import Str ImageFolderConfig.

Lemma split_slash_aux_cons (cur s : string) :
  exists p ps, split_slash_aux cur s = p :: ps.
Proof.
  revert cur. induction s as [|c s IH]; intros cur; cbn [split_slash_aux].
  - by eexists _, _.
  - destruct (Ascii.eqb c "/"); [by eexists _, _|]. apply IH.
Qed.

Lemma join_split_slash_aux (cur s : string) :
  join "/" (split_slash_aux cur s) = reverse cur ++ s.
Proof.
  revert cur. induction s as [|c s IH]; intros cur; cbn [split_slash_aux].
  - cbn [join]. by rewrite str_app_nil_r.
  - destruct (Ascii.eqb_spec c "/") as [->|Hc].
    + destruct (split_slash_aux_cons "" s) as (p & ps & E).
      pose proof (IH "") as IH'. rewrite E in *.
      change (join "/" (reverse cur :: p :: ps))
        with (reverse cur ++ "/" ++ join "/" (p :: ps)).
      by rewrite IH'.
    + rewrite IH, str_reverse_cons, <- str_app_assoc. done.
Qed.

Lemma join_split_slash (s : string) : join "/" (split_slash s) = s.
Proof. unfold split_slash. by rewrite join_split_slash_aux. Qed.

Lemma split_slash_inj (p q : string) :
  split_slash p = split_slash q -> p = q.
Proof.
  intros E. by rewrite <- (join_split_slash p), <- (join_split_slash q), E.
Qed.

Lemma path_le_antisym (p q : Path) : path_le p q -> path_le q p -> p = q.
Proof.
  unfold path_le, path_ltb. intros H1 H2.
  apply split_slash_inj. by apply list_ltb_antisym.
Qed.

Lemma sorted_Permutation (l1 l2 : list Path) :
  l1 ≡ₚ l2 -> sorted l1 = sorted l2.
Proof.
  intros Hp. unfold sorted.
  apply (StronglySorted_unique_strong path_le).
  - intros x1 x2 _ _ H1 H2. by apply path_le_antisym.
  - apply (StronglySorted_merge_sort path_le).
  - apply (StronglySorted_merge_sort path_le).
  - by rewrite !merge_sort_Permutation.
Qed.

Lemma filter_Permutation {A} (f : A -> bool) (l1 l2 : list A) :
  l1 ≡ₚ l2 -> List.filter f l1 ≡ₚ List.filter f l2.
Proof.
  induction 1 as [|x l1 l2 _ IH|x y l|l1 l2 l3 _ IH1 _ IH2]; simpl.
  - done.
  - destruct (f x); by rewrite IH.
  - destruct (f x), (f y); try done. apply perm_swap.
  - by etrans.
Qed.

(** X11.  The list [get_image_files] returns, and the error it raises, do
    not depend on the order in which the directory is enumerated. *)
Theorem get_image_files_order (entries entries' : list string)
    (folder : Path) :
  entries ≡ₚ entries' ->
  get_image_files (Directory entries) folder
  = get_image_files (Directory entries') folder.
Proof.
  intros Hp. unfold get_image_files. cbn [validate exists_ negb iterdir bind].
  rewrite (sorted_Permutation
             (List.filter is_image (List.map (joinpath folder) entries))
             (List.filter is_image (List.map (joinpath folder) entries')));
    [done|].
  apply filter_Permutation, Permutation_map, Hp.
Qed.

(** A folder listed in two orders. *)
Lemma get_image_files_order_example :
  get_image_files (Directory ["b.png"; "notes.txt"; "a.JPG"]) "images"
  = get_image_files (Directory ["notes.txt"; "b.png"; "a.JPG"]) "images".
Proof.
  apply (get_image_files_order ["b.png"; "notes.txt"; "a.JPG"]
           ["notes.txt"; "b.png"; "a.JPG"] "images").
  apply perm_swap.
Defined.

Lemma split_slash_aux_app (cur a e : string) :
  split_slash_aux cur (a ++ String "/" e)
  = (split_slash_aux cur a ++ split_slash_aux "" e)%list.
Proof.
  revert cur. induction a as [|c a IH]; intros cur.
  - done.
  - rewrite str_app_cons. cbn [split_slash_aux].
    destruct (Ascii.eqb c "/"); by rewrite IH.
Qed.

Lemma split_slash_aux_plain (cur e : string) :
  forallb (fun c => negb (Ascii.eqb c "/")) (list_ascii_of_string e) = true ->
  split_slash_aux cur e = [reverse cur ++ e].
Proof.
  revert cur. induction e as [|c e IH]; intros cur; simpl.
  - by rewrite str_app_nil_r.
  - intros [Hc He]%andb_true_iff. apply negb_true_iff in Hc. rewrite Hc.
    rewrite IH by done. by rewrite str_reverse_cons, <- str_app_assoc.
Qed.

Lemma name_plain (e : string) : entry_name e = true -> PathLib.name e = e.
Proof.
  unfold entry_name. intros [[H1 H2]%andb_true_iff H3]%andb_true_iff.
  unfold PathLib.name, PathLib.tail, split_slash.
  rewrite split_slash_aux_plain by done.
  change (reverse "" ++ e) with e. cbn [List.filter]. by rewrite H1, H2.
Qed.

Lemma name_slash (a e : string) :
  entry_name e = true -> PathLib.name (a ++ String "/" e) = e.
Proof.
  unfold entry_name. intros [[H1 H2]%andb_true_iff H3]%andb_true_iff.
  unfold PathLib.name, PathLib.tail, split_slash.
  rewrite split_slash_aux_app, (split_slash_aux_plain "" e) by done.
  change (reverse "" ++ e) with e.
  rewrite List.filter_app. cbn [List.filter]. rewrite H1, H2.
  apply last_last.
Qed.

(** The name of [folder / entry] is the entry. *)
Lemma name_joinpath (folder e : string) :
  entry_name e = true -> PathLib.name (joinpath folder e) = e.
Proof.
  intros He. unfold joinpath.
  destruct (String.eqb folder "." || String.eqb folder "");
    [by apply name_plain|].
  destruct (endswith folder "/") eqn:E.
  - apply endswith_char_inv in E as [r Hr].
    assert (Hf : folder = reverse r ++ "/").
    { by rewrite <- (str_reverse_involutive folder), Hr, str_reverse_cons. }
    rewrite Hf, <- str_app_assoc. by apply name_slash.
  - by apply name_slash.
Qed.

Lemma names_of_images (folder : string) (entries : list string) :
  Forall (fun e => entry_name e = true) entries ->
  PathLib.name <$> List.filter is_image (List.map (joinpath folder) entries)
  = List.filter image_name entries.
Proof.
  induction 1 as [|e entries He _ IH]; [done|]. cbn [List.map List.filter].
  assert (Hi : is_image (joinpath folder e) = image_name e).
  { unfold is_image, image_name, PathLib.suffix. by rewrite name_joinpath. }
  rewrite Hi. destruct (image_name e); [|done].
  cbn [fmap list_fmap]. fold (@fmap list _ _ _ PathLib.name).
  by rewrite IH, name_joinpath.
Qed.

(** X12.  Which files are selected depends on their own names only: the
    base names of the files [get_image_files] returns are the entries of the
    folder whose own extension is, in lower case, a supported one, whatever
    the path of the folder is; each returned path has its entry as base
    name. *)
Theorem get_image_files_names (entries : list string) (folder : Path)
    (files : list Path) :
  Forall (fun e => entry_name e = true) entries ->
  get_image_files (Directory entries) folder = Ok files ->
  PathLib.name <$> files ≡ₚ List.filter image_name entries
  /\ Forall (fun f => f = joinpath folder (PathLib.name f)
                      /\ PathLib.name f ∈ entries) files.
Proof.
  intros Hentries. unfold get_image_files.
  cbn [validate exists_ negb iterdir bind].
  set (fs := List.filter is_image (List.map (joinpath folder) entries)).
  pose proof (merge_sort_Permutation path_le fs) as Hperm.
  fold (sorted fs) in Hperm.
  destruct (sorted fs) as [|f rest] eqn:E; [done|]. intros [= <-].
  split.
  - rewrite Hperm. unfold fs. by rewrite names_of_images.
  - rewrite Hperm. unfold fs. apply Forall_forall. intros p Hp.
    apply list_elem_of_In, filter_In in Hp as [Hp _]. apply in_map_iff in Hp as (e & <- & He).
    rewrite Forall_forall in Hentries.
    rewrite name_joinpath by (apply Hentries; by apply list_elem_of_In).
    split; [done|]. by apply list_elem_of_In.
Qed.

(** The folder of the test, under a path that ends in an extension. *)
Lemma get_image_files_names_example :
  PathLib.name <$> ["scans.png/test1.png"; "scans.png/test2.jpg"]
  ≡ₚ List.filter image_name demo_entries
  /\ Forall (fun f => f = joinpath "scans.png" (PathLib.name f)
                      /\ PathLib.name f ∈ demo_entries)
            ["scans.png/test1.png"; "scans.png/test2.jpg"].
Proof.
  apply (get_image_files_names demo_entries "scans.png").
  - repeat constructor.
  - reflexivity.
Defined.

End image_folder_more.

(** ** More on the API parameters *)

Section openai_config_more.

Import OpenAIConfig OpenAIConfigOps.

Lemma assign_accepted (a : assignment) (self : t) :
  (accepted a = false -> (assign a self).1 = self)
  /\ (accepted a = true -> (assign a self).2 = Ok tt)
  /\ api_key (assign a self).1 = api_key self
  /\ (valid self = true -> valid (assign a self).1 = true).
Proof.
  destruct a as [v|v|v]; cbn [assign accepted].
  - by repeat split.
  - unfold set_max_tokens, valid. rewrite Z.ltb_antisym.
    destruct (v <=? 0) eqn:E; cbn [negb fst snd]; repeat split; try done.
    cbn [max_tokens temperature]. intros [_ H]%andb_true_iff.
    rewrite H, andb_true_r. apply Z.ltb_lt. apply Z.leb_gt in E. lia.
  - unfold set_temperature, valid.
    destruct (in_range v) eqn:E; cbn [negb fst snd]; repeat split; try done.
    cbn [max_tokens temperature]. intros [H _]%andb_true_iff.
    by rewrite H, E.
Qed.

(** X13.  Whatever assignments are attempted on the model, the token limit
    and the temperature, in any order and whether accepted or rejected, the
    API key stays the same and parameters the setters would accept stay so;
    the final state is the one the accepted assignments alone produce. *)
Theorem assignments_keep_valid (l : list assignment) (self : t) :
  api_key (assign_all l self) = api_key self
  /\ (valid self = true -> valid (assign_all l self) = true)
  /\ assign_all l self = assign_all (List.filter accepted l) self
  /\ valid (assign_all l (init (api_key self))) = true.
Proof.
  assert (H : forall s, api_key (assign_all l s) = api_key s
    /\ (valid s = true -> valid (assign_all l s) = true)
    /\ assign_all l s = assign_all (List.filter accepted l) s).
  { induction l as [|a l IH]; intros s; [done|]. cbn [assign_all List.filter].
    destruct (assign_accepted a s) as (Hrej & _ & Hkey & Hval).
    destruct (IH (assign a s).1) as (IH1 & IH2 & IH3).
    split; [by rewrite IH1|]. split; [by auto|].
    destruct (accepted a) eqn:E; cbn [assign_all]; [done|].
    rewrite Hrej in * by done. done. }
  destruct (H self) as (H1 & H2 & H3).
  repeat split; try done. by apply H.
Qed.

Lemma drop_split (n : nat) (s : string) :
  exists p, s = p ++ Str.drop n s
            /\ String.length p = Nat.min n (String.length s).
Proof.
  revert s. induction n as [|n IH]; intros s.
  - exists "". by destruct s.
  - destruct s as [|c s]; [by exists ""|].
    destruct (IH s) as (p & Hp & Hl). exists (String c p).
    cbn [Str.drop]. rewrite str_app_cons. split; [by rewrite <- Hp|].
    simpl. by rewrite Hl.
Qed.

Lemma length_drop (n : nat) (s : string) :
  String.length (Str.drop n s) = (String.length s - n)%nat.
Proof.
  revert s. induction n as [|n IH]; intros s; [by destruct s; simpl; lia|].
  destruct s as [|c s]; [done|]. apply IH.
Qed.

(** X14.  The masked key is three stars followed by at most four
    characters, which are the last four characters of the key; a key of four
    characters or less shows none, so that the masked form never shows a
    whole non-empty key. *)
Theorem get_api_key_masked_spec (self : t) :
  exists hidden shown,
    get_api_key_masked self = "***" ++ shown
    /\ api_key self = hidden ++ shown
    /\ String.length shown = (if (4 <? String.length (api_key self))%nat
                              then 4 else 0)%nat
    /\ (shown = api_key self -> api_key self = "").
Proof.
  unfold get_api_key_masked, last_chars.
  destruct (4 <? String.length (api_key self))%nat eqn:E.
  - apply Nat.ltb_lt in E.
    destruct (drop_split (String.length (api_key self) - 4) (api_key self))
      as (p & Hp & Hl).
    exists p, (Str.drop (String.length (api_key self) - 4) (api_key self)).
    split; [done|]. split; [done|]. rewrite length_drop.
    split; [lia|]. intros Heq. apply (f_equal String.length) in Heq.
    rewrite length_drop in Heq. lia.
  - exists (api_key self), "".
    split; [reflexivity|]. split; [by rewrite str_app_nil_r|].
    split; [done|]. by intros <-.
Qed.

End openai_config_more.

(** ** The image encoder *)

Section image_utils.

Import Str ImageUtils Extractor.

Lemma sextet_elem (n : nat) : (n < 64)%nat -> In n sextets.
Proof. intros H. apply in_seq. lia. Qed.

Lemma digit_char (n : nat) :
  (n < 64)%nat ->
  exists c, digit n = String c "" /\ b64_char c = true /\ c <> "="%char.
Proof.
  intros H%sextet_elem. revert n H. apply List.Forall_forall.
  unfold sextets. cbn [seq].
  repeat (constructor; [eexists; split; [reflexivity|by split]|]).
  constructor.
Qed.

Lemma digit_inj (n m : nat) :
  (n < 64)%nat -> (m < 64)%nat -> digit n = digit m -> n = m.
Proof.
  intros Hn%sextet_elem Hm%sextet_elem E.
  assert (Hall : forallb (fun n => forallb (fun m =>
            implb (String.eqb (digit n) (digit m)) (n =? m)%nat) sextets)
            sextets = true) by (vm_compute; reflexivity).
  rewrite forallb_forall in Hall. specialize (Hall n Hn).
  rewrite forallb_forall in Hall. specialize (Hall m Hm).
  apply String.eqb_eq in E. rewrite E in Hall. by apply Nat.eqb_eq.
Qed.

Lemma ord_bound (c : ascii) : (ord c < 256)%nat.
Proof. apply nat_ascii_bounded. Qed.

Lemma ord_inj (a b : ascii) : ord a = ord b -> a = b.
Proof.
  unfold ord. intros E.
  rewrite <- (ascii_nat_embedding a), <- (ascii_nat_embedding b).
  by f_equal.
Qed.

(** Induction on a byte string by groups of three. *)
Lemma string_ind3 (P : string -> Prop) :
  P "" ->
  (forall a, P (String a "")) ->
  (forall a b, P (String a (String b ""))) ->
  (forall a b c rest, P rest -> P (String a (String b (String c rest)))) ->
  forall s, P s.
Proof.
  intros H0 H1 H2 H3.
  assert (H : forall s, P s /\ (forall a, P (String a s))
                        /\ (forall a b, P (String a (String b s)))).
  { induction s as [|c s (IH0 & IH1 & IH2)]; [by auto|].
    split; [by auto|]. split; [by auto|]. intros a b. by apply H3. }
  intros s. apply H.
Qed.

(** The four digits of a full group, and what is left of a last group. *)
Lemma sextet_bounds (a b c : ascii) :
  (ord a / 4 < 64 /\ ord a mod 4 * 16 + ord b / 16 < 64
   /\ ord b mod 16 * 4 + ord c / 64 < 64 /\ ord c mod 64 < 64
   /\ ord a mod 4 * 16 < 64 /\ ord b mod 16 * 4 < 64)%nat.
Proof.
  pose proof (ord_bound a). pose proof (ord_bound b).
  pose proof (ord_bound c).
  pose proof (Nat.mod_upper_bound (ord a) 4).
  pose proof (Nat.mod_upper_bound (ord b) 16).
  pose proof (Nat.mod_upper_bound (ord c) 64).
  assert (ord a / 4 < 64)%nat by (apply Nat.Div0.div_lt_upper_bound; lia).
  assert (ord b / 16 < 16)%nat by (apply Nat.Div0.div_lt_upper_bound; lia).
  assert (ord c / 64 < 4)%nat by (apply Nat.Div0.div_lt_upper_bound; lia).
  lia.
Qed.

Lemma b64encode_one (a : ascii) :
  exists d1 d2,
    b64encode (String a "")
    = String d1 (String d2 "==")
    /\ digit (ord a / 4) = String d1 ""
    /\ digit (ord a mod 4 * 16) = String d2 ""
    /\ b64_char d1 = true /\ b64_char d2 = true.
Proof.
  destruct (sextet_bounds a a a) as (H1 & _ & _ & _ & H2 & _).
  destruct (digit_char _ H1) as (d1 & E1 & C1 & _).
  destruct (digit_char _ H2) as (d2 & E2 & C2 & _).
  exists d1, d2. cbn [b64encode]. by rewrite E1, E2.
Qed.

Lemma b64encode_two (a b : ascii) :
  exists d1 d2 d3,
    b64encode (String a (String b ""))
    = String d1 (String d2 (String d3 "="))
    /\ digit (ord a / 4) = String d1 ""
    /\ digit (ord a mod 4 * 16 + ord b / 16) = String d2 ""
    /\ digit (ord b mod 16 * 4) = String d3 ""
    /\ b64_char d1 = true /\ b64_char d2 = true /\ b64_char d3 = true
    /\ d3 <> "="%char.
Proof.
  destruct (sextet_bounds a b b) as (H1 & H2 & _ & _ & _ & H3).
  destruct (digit_char _ H1) as (d1 & E1 & C1 & _).
  destruct (digit_char _ H2) as (d2 & E2 & C2 & _).
  destruct (digit_char _ H3) as (d3 & E3 & C3 & N3).
  exists d1, d2, d3. cbn [b64encode]. by rewrite E1, E2, E3.
Qed.

Lemma b64encode_three (a b c : ascii) (rest : string) :
  exists d1 d2 d3 d4,
    b64encode (String a (String b (String c rest)))
    = String d1 (String d2 (String d3 (String d4 (b64encode rest))))
    /\ digit (ord a / 4) = String d1 ""
    /\ digit (ord a mod 4 * 16 + ord b / 16) = String d2 ""
    /\ digit (ord b mod 16 * 4 + ord c / 64) = String d3 ""
    /\ digit (ord c mod 64) = String d4 ""
    /\ b64_char d1 = true /\ b64_char d2 = true /\ b64_char d3 = true
    /\ b64_char d4 = true /\ d3 <> "="%char /\ d4 <> "="%char.
Proof.
  destruct (sextet_bounds a b c) as (H1 & H2 & H3 & H4 & _ & _).
  destruct (digit_char _ H1) as (d1 & E1 & C1 & _).
  destruct (digit_char _ H2) as (d2 & E2 & C2 & _).
  destruct (digit_char _ H3) as (d3 & E3 & C3 & N3).
  destruct (digit_char _ H4) as (d4 & E4 & C4 & N4).
  exists d1, d2, d3, d4.
  change (b64encode (String a (String b (String c rest))))
    with ((digit (ord a / 4) ++ digit (ord a mod 4 * 16 + ord b / 16)
           ++ digit (ord b mod 16 * 4 + ord c / 64) ++ digit (ord c mod 64))
          ++ b64encode rest).
  by rewrite E1, E2, E3, E4.
Qed.

Lemma b64encode_length (data : string) :
  String.length (b64encode data) = b64_length (String.length data).
Proof.
  induction data as [|a|a b|a b c rest IH] using string_ind3.
  - done.
  - destruct (b64encode_one a) as (d1 & d2 & -> & _). done.
  - destruct (b64encode_two a b) as (d1 & d2 & d3 & -> & _). done.
  - destruct (b64encode_three a b c rest) as (d1 & d2 & d3 & d4 & -> & _).
    cbn [String.length]. rewrite IH. unfold b64_length.
    replace (S (S (S (String.length rest))) + 2)%nat
      with ((String.length rest + 2) + 1 * 3)%nat by lia.
    rewrite Nat.div_add by lia. lia.
Qed.

Lemma b64encode_chars (data : string) :
  forallb b64_char (list_ascii_of_string (b64encode data)) = true.
Proof.
  induction data as [|a|a b|a b c rest IH] using string_ind3.
  - done.
  - destruct (b64encode_one a) as (d1 & d2 & -> & _ & _ & C1 & C2).
    cbn [list_ascii_of_string forallb]. by rewrite C1, C2.
  - destruct (b64encode_two a b)
      as (d1 & d2 & d3 & -> & _ & _ & _ & C1 & C2 & C3 & _).
    cbn [list_ascii_of_string forallb]. by rewrite C1, C2, C3.
  - destruct (b64encode_three a b c rest)
      as (d1 & d2 & d3 & d4 & -> & _ & _ & _ & _ & C1 & C2 & C3 & C4 & _).
    cbn [list_ascii_of_string forallb]. by rewrite C1, C2, C3, C4, IH.
Qed.

(** The digits of a group give its bytes back. *)
Lemma group_inj (a b c a' b' c' : ascii) :
  (ord a / 4 = ord a' / 4)%nat ->
  (ord a mod 4 * 16 + ord b / 16 = ord a' mod 4 * 16 + ord b' / 16)%nat ->
  (ord b mod 16 * 4 + ord c / 64 = ord b' mod 16 * 4 + ord c' / 64)%nat ->
  (ord c mod 64 = ord c' mod 64)%nat ->
  a = a' /\ b = b' /\ c = c'.
Proof.
  intros E1 E2 E3 E4.
  pose proof (Nat.div_mod_eq (ord a) 4). pose proof (Nat.div_mod_eq (ord a') 4).
  pose proof (Nat.div_mod_eq (ord b) 16).
  pose proof (Nat.div_mod_eq (ord b') 16).
  pose proof (Nat.div_mod_eq (ord c) 64).
  pose proof (Nat.div_mod_eq (ord c') 64).
  pose proof (Nat.mod_upper_bound (ord a) 4).
  pose proof (Nat.mod_upper_bound (ord a') 4).
  pose proof (Nat.mod_upper_bound (ord b) 16).
  pose proof (Nat.mod_upper_bound (ord b') 16).
  pose proof (Nat.mod_upper_bound (ord c) 64).
  pose proof (Nat.mod_upper_bound (ord c') 64).
  pose proof (sextet_bounds a b c) as (_ & _ & _ & _ & _ & _).
  assert (ord b / 16 < 16)%nat
    by (apply Nat.Div0.div_lt_upper_bound; pose proof (ord_bound b); lia).
  assert (ord b' / 16 < 16)%nat
    by (apply Nat.Div0.div_lt_upper_bound; pose proof (ord_bound b'); lia).
  assert (ord c / 64 < 4)%nat
    by (apply Nat.Div0.div_lt_upper_bound; pose proof (ord_bound c); lia).
  assert (ord c' / 64 < 4)%nat
    by (apply Nat.Div0.div_lt_upper_bound; pose proof (ord_bound c'); lia).
  repeat split; apply ord_inj; lia.
Qed.

Lemma digit_eq (n m : nat) (d : ascii) :
  (n < 64)%nat -> (m < 64)%nat ->
  digit n = String d "" -> digit m = String d "" -> n = m.
Proof. intros Hn Hm E1 E2. apply digit_inj; congruence. Qed.

Lemma b64encode_inj (x y : string) : b64encode x = b64encode y -> x = y.
Proof.
  revert y. induction x as [|a|a b|a b c rest IH] using string_ind3;
    intros y; induction y as [|a'|a' b'|a' b' c' rest' _] using string_ind3;
    intros E; try done;
    change (b64encode "") with "" in E;
    repeat match goal with
    | E : context [b64encode (String ?a "")] |- _ =>
        let H := fresh "Henc" in
        destruct (b64encode_one a) as (? & ? & H & ? & ? & _);
        rewrite H in E; clear H
    | E : context [b64encode (String ?a (String ?b ""))] |- _ =>
        let H := fresh "Henc" in
        destruct (b64encode_two a b)
          as (? & ? & ? & H & ? & ? & ? & _ & _ & _ & ?);
        rewrite H in E; clear H
    | E : context [b64encode (String ?a (String ?b (String ?c ?r)))] |- _ =>
        let H := fresh "Henc" in
        destruct (b64encode_three a b c r)
          as (? & ? & ? & ? & H & ? & ? & ? & ? & _ & _ & _ & _ & ? & ?);
        rewrite H in E; clear H
    end;
    try (simplify_eq; done).
  - injection E as -> ->.
    pose proof (sextet_bounds a a a) as (? & _ & _ & _ & ? & _).
    pose proof (sextet_bounds a' a' a') as (? & _ & _ & _ & ? & _).
    assert (ord a / 4 = ord a' / 4)%nat by (eapply digit_eq; eauto).
    assert (ord a mod 4 * 16 = ord a' mod 4 * 16)%nat by (eapply digit_eq; eauto).
    f_equal. apply ord_inj.
    pose proof (Nat.div_mod_eq (ord a) 4).
    pose proof (Nat.div_mod_eq (ord a') 4). lia.
  - injection E as -> -> ->.
    pose proof (sextet_bounds a b b) as (? & ? & _ & _ & _ & ?).
    pose proof (sextet_bounds a' b' b') as (? & ? & _ & _ & _ & ?).
    assert (E1 : (ord a / 4 = ord a' / 4)%nat) by (eapply digit_eq; eauto).
    assert (E2 : (ord a mod 4 * 16 + ord b / 16
                  = ord a' mod 4 * 16 + ord b' / 16)%nat)
      by (eapply digit_eq; eauto).
    assert (E3 : (ord b mod 16 * 4 = ord b' mod 16 * 4)%nat)
      by (eapply digit_eq; eauto).
    destruct (group_inj a b "000" a' b' "000") as (-> & -> & _);
      [done | done | | done | done]. by rewrite E3.
  - injection E as -> -> -> -> E.
    pose proof (sextet_bounds a b c) as (? & ? & ? & ? & _ & _).
    pose proof (sextet_bounds a' b' c') as (? & ? & ? & ? & _ & _).
    destruct (group_inj a b c a' b' c') as (-> & -> & ->);
      try (eapply digit_eq; eauto).
    by rewrite (IH _ E).
Qed.

(** X15.  [encode_image] passes on the error of reading the file, and
    otherwise returns a text of four characters for every group of three
    bytes, the last group padded, all of them from the base64 alphabet or
    the padding character; an empty file gives the empty text. *)
Theorem encode_image_spec (w : World) (image_path : string) :
  match read_bytes w image_path with
  | Failed cls msg =>
      encode_image w image_path = Raise (PyException cls msg)
  | Returned data =>
      exists text,
        encode_image w image_path = Ok text
        /\ String.length text = b64_length (String.length data)
        /\ forallb b64_char (list_ascii_of_string text) = true
        /\ (text = "" <-> data = "")
  end.
Proof.
  unfold encode_image. destruct (read_bytes w image_path) as [data|cls msg];
    cbn [call bind]; [|done].
  exists (b64encode data). split; [done|].
  split; [apply b64encode_length|]. split; [apply b64encode_chars|].
  split; [|by intros ->]. intros E. by apply b64encode_inj.
Qed.

(** X16.  The encoding loses nothing: two files are sent as the same text
    exactly when they hold the same bytes. *)
Theorem encode_image_inj (w w' : World) (image_path image_path' : string)
    (data data' : string) :
  read_bytes w image_path = Returned data ->
  read_bytes w' image_path' = Returned data' ->
  (encode_image w image_path = encode_image w' image_path' <-> data = data').
Proof.
  unfold encode_image. intros -> ->. cbn [call bind].
  split; [|by intros ->]. intros [= E]. by apply b64encode_inj.
Qed.

(** Two worlds that hold the same picture under different names. *)
Lemma encode_image_inj_example :
  encode_image demo_world "a.png" = encode_image demo_world "b.png"
  <-> "PNG" = "PNG".
Proof.
  apply (encode_image_inj demo_world demo_world "a.png" "b.png" "PNG" "PNG");
    reflexivity.
Defined.

End image_utils.

(** ** The processor on the records of the extractor *)

Section pipeline.

Import Pipeline.

Lemma str_items_raises (items : list json) :
  forall i,
    raises (str_items i items)
    = existsb (fun v => match v with JStr _ => false | _ => true end) items.
Proof.
  induction items as [|v items IH]; intros i; [done|].
  destruct v; try done. cbn [str_items existsb orb].
  specialize (IH (S i)). by destruct (str_items (S i) items).
Qed.

Lemma existsb_filter {A} (p q : A -> bool) (l : list A) :
  existsb q (List.filter p l) = existsb (fun x => p x && q x) l.
Proof.
  induction l as [|x l IH]; [done|]. cbn [List.filter existsb].
  destruct (p x); cbn [existsb andb orb]; by rewrite IH.
Qed.

Lemma existsb_fmap {A B} (f : A -> B) (q : B -> bool) (l : list A) :
  existsb q (f <$> l) = existsb (fun x => q (f x)) l.
Proof.
  induction l as [|x l IH]; [done|].
  cbn [fmap list_fmap existsb]. by rewrite <- IH.
Qed.

Lemma sample_text_raises (fields : list string) (r : record) :
  raises (sample_text fields r) = bad_record fields r.
Proof.
  unfold sample_text, join, bad_record.
  pose proof (str_items_raises
    (List.filter truthy
       ((fun field => default (JStr "") (r !! field)) <$> take 2 fields)) 0)
    as H.
  rewrite existsb_filter, existsb_fmap in H. unfold bad_value. rewrite <- H.
  by destruct (str_items _ _).
Qed.

Lemma sample_lines_raises (fields : list string) (records : list record) :
  forall j,
    raises (sample_lines fields j records).2
    = existsb (bad_record fields) records.
Proof.
  induction records as [|r rs IH]; intros j; [done|].
  cbn [sample_lines existsb]. rewrite <- sample_text_raises.
  destruct (sample_text fields r) as [text|e]; [|done].
  specialize (IH (S j)). by destruct (sample_lines fields (S j) rs).
Qed.

Lemma log_sample_records_raises (fields : list string)
    (records : list record) :
  raises (log_sample_records fields records).2 = sample_fails fields records.
Proof.
  unfold log_sample_records, sample_fails.
  rewrite <- (sample_lines_raises fields (take 3 records) 1).
  destruct (sample_lines fields 1 (take 3 records)) as [evs [[]|e]]; done.
Qed.

Context {W : Type}.
Variable extractor : string -> W -> W * result (list record).
Variable fields : list string.

Lemma any_outcomes_length (image_files : list string) (w : W) :
  length (outcomes extractor image_files w) = length image_files.
Proof.
  revert w. induction image_files as [|f files IH]; intros w; [done|].
  simpl. destruct (extractor f w) as [w' out]. simpl. by rewrite IH.
Qed.

Lemma any_body_spec (verbose cb : bool) (total i : nat) (image_file : string)
    (st : locals) :
  let out := (extractor image_file (l_world st)).2 in
  let st' := body extractor fields verbose cb total i image_file st in
  l_failed_images st'
  = (l_failed_images st
     ++ names_where (counted_failed verbose fields) [image_file] [out])%list
  /\ l_all_results st'
     = (l_all_results st
        ++ records_where (counted_failed verbose fields) [out])%list
  /\ l_total_records st'
     = l_total_records st
       + Z.of_nat (length (records_where (counted_failed verbose fields)
                                         [out]))
  /\ l_world st' = (extractor image_file (l_world st)).1.
Proof.
  unfold body, records_where.
  destruct (extractor image_file (l_world st)) as [w' out].
  cbn [fst snd names_where fmap list_fmap concat].
  destruct out as [[|r rs]|e]; cbn [counted_failed].
  - cbn. by rewrite ?app_nil_r, ?Z.add_0_r.
  - destruct verbose; cbn [andb];
      [|cbn; by rewrite ?app_nil_r, ?Z.add_0_r].
    rewrite <- log_sample_records_raises.
    destruct (log_sample_records fields (r :: rs)) as [evs [[]|e]];
      cbn; by rewrite ?app_nil_r, ?Z.add_0_r.
  - cbn. by rewrite ?app_nil_r, ?Z.add_0_r.
Qed.

Lemma names_where_cons (p : result (list record) -> bool) (f : string)
    (files : list string) (out : result (list record))
    (outs : list (result (list record))) :
  names_where p (f :: files) (out :: outs)
  = (names_where p [f] [out] ++ names_where p files outs)%list.
Proof. cbn [names_where]. by rewrite app_nil_r. Qed.

Lemma records_where_cons (p : result (list record) -> bool)
    (out : result (list record)) (outs : list (result (list record))) :
  records_where p (out :: outs)
  = (records_where p [out] ++ records_where p outs)%list.
Proof.
  unfold records_where. cbn [fmap list_fmap concat]. by rewrite app_nil_r.
Qed.

Lemma any_loop_spec (verbose cb : bool) (total : nat)
    (image_files : list string) :
  forall (i : nat) (st : locals),
    let outs := outcomes extractor image_files (l_world st) in
    let st' := loop extractor fields verbose cb total i image_files st in
    l_failed_images st'
    = (l_failed_images st
       ++ names_where (counted_failed verbose fields) image_files outs)%list
    /\ l_all_results st'
       = (l_all_results st
          ++ records_where (counted_failed verbose fields) outs)%list
    /\ l_total_records st'
       = l_total_records st
         + Z.of_nat (length (records_where (counted_failed verbose fields)
                                           outs))
    /\ l_world st' = world_after extractor image_files (l_world st).
Proof.
  induction image_files as [|f files IH]; intros i st.
  - cbn. by rewrite !app_nil_r, Z.add_0_r.
  - cbn [loop outcomes world_after].
    destruct (any_body_spec verbose cb total i f st) as (Hf & Ha & Ht & Hw).
    destruct (IH (S i) (body extractor fields verbose cb total i f st))
      as (Hf' & Ha' & Ht' & Hw').
    rewrite Hw in Hf', Ha', Ht', Hw'.
    destruct (extractor f (l_world st)) as [w' out]. cbn [fst snd] in *.
    rewrite Hf', Ha', Ht', Hw', Hf, Ha, Ht.
    rewrite (names_where_cons _ f files out (outcomes extractor files w')),
      (records_where_cons _ out (outcomes extractor files w')).
    rewrite length_app, Nat2Z.inj_add, <- !app_assoc.
    repeat split; try done. lia.
Qed.

Lemma any_process_images_run (verbose cb : bool) (image_files : list string)
    (w : W) :
  let outs := outcomes extractor image_files w in
  let p := counted_failed verbose fields in
  let run := process_images extractor fields verbose cb image_files w in
  run.1.1
  = {| total_images := Z.of_nat (length image_files);
       successful_images :=
         Z.of_nat (length image_files)
         - Z.of_nat (length (names_where p image_files outs));
       failed_images := names_where p image_files outs;
       total_records := Z.of_nat (length (records_where p outs));
       all_results := records_where p outs |}
  /\ run.2 = world_after extractor image_files w.
Proof.
  intros outs p run.
  pose proof (any_loop_spec verbose cb (length image_files) image_files 1
                {| l_all_results := []; l_total_records := 0;
                   l_failed_images := []; l_events := []; l_world := w |})
    as (Hf & Ha & Ht & Hw).
  cbn [l_failed_images l_all_results l_total_records l_world app] in *.
  subst run. unfold process_images. cbn [fst snd].
  rewrite Hf, Ha, Ht, Hw. by rewrite Z.add_0_l.
Qed.

(** X17.  On the records the extractor builds, whose values need not be
    strings, an image is counted as failed when the extractor raised or
    returned no record and also when the run is verbose and the sample of
    its records cannot be logged, which happens exactly when one of its
    first three records holds, in one of the first two configured fields, a
    value that is truthy and no string; the records of such an image are
    not kept.  [failed_images] and [all_results] list the failed names and
    the kept records in order, and the counts follow. *)
Theorem process_images_any (verbose cb : bool) (image_files : list string)
    (w : W) :
  let outs := outcomes extractor image_files w in
  let p := counted_failed verbose fields in
  let r := (process_images extractor fields verbose cb image_files w).1.1 in
  failed_images r = names_where p image_files outs
  /\ all_results r = records_where p outs
  /\ total_records r = Z.of_nat (length (all_results r))
  /\ total_images r = Z.of_nat (length image_files)
  /\ successful_images r
     = total_images r - Z.of_nat (length (failed_images r)).
Proof.
  intros outs p r.
  destruct (any_process_images_run verbose cb image_files w) as [Hr _].
  subst r. by rewrite Hr.
Qed.

Lemma names_where_mono (p q : result (list record) -> bool)
    (image_files : list string) (outs : list (result (list record))) :
  (forall out, p out = true -> q out = true) ->
  names_where p image_files outs `sublist_of` names_where q image_files outs.
Proof.
  intros Hpq. revert outs.
  induction image_files as [|f files IH]; intros [|out outs]; try done.
  cbn [names_where]. apply sublist_app; [|apply IH].
  destruct (p out) eqn:E; [by rewrite (Hpq _ E)|]. apply sublist_nil_l.
Qed.

Lemma records_where_mono (p q : result (list record) -> bool)
    (outs : list (result (list record))) :
  (forall out, p out = true -> q out = true) ->
  records_where q outs `sublist_of` records_where p outs.
Proof.
  intros Hpq. unfold records_where.
  induction outs as [|out outs IH]; [done|].
  cbn [fmap list_fmap concat]. apply sublist_app; [|apply IH].
  destruct (p out) eqn:E; [by rewrite (Hpq _ E)|].
  destruct (q out); [apply sublist_nil_l|done].
Qed.

Lemma names_where_eq (p q : result (list record) -> bool)
    (image_files : list string) (outs : list (result (list record))) :
  (forall out, p out = true -> q out = true) ->
  length image_files = length outs ->
  names_where p image_files outs = names_where q image_files outs ->
  Forall (fun out => p out = q out) outs.
Proof.
  intros Hpq. revert outs.
  induction image_files as [|f files IH]; intros [|out outs] Hl E; try done.
  cbn [names_where] in E. simpl in Hl.
  pose proof (sublist_length _ _ (names_where_mono p q files outs Hpq)) as Hle.
  destruct (p out) eqn:Ep.
  - rewrite (Hpq _ Ep) in E. constructor; [by rewrite (Hpq _ Ep)|].
    apply IH; [lia|]. by simplify_list_eq.
  - destruct (q out) eqn:Eq.
    + apply (f_equal length) in E. simpl in E. lia.
    + constructor; [congruence|]. apply IH; [lia|]. by simplify_list_eq.
Qed.

Lemma where_ext (p q : result (list record) -> bool)
    (image_files : list string) (outs : list (result (list record))) :
  Forall (fun out => p out = q out) outs ->
  names_where p image_files outs = names_where q image_files outs
  /\ records_where p outs = records_where q outs.
Proof.
  intros H. revert image_files. unfold records_where.
  induction H as [|out outs E _ IH]; intros files.
  - split; [by destruct files|done].
  - destruct (IH []) as [_ IHr]. split.
    + destruct files as [|f files]; [done|]. cbn [names_where].
      destruct (IH files) as [-> _]. by rewrite E.
    + cbn [fmap list_fmap concat]. by rewrite E, IHr.
Qed.

Lemma counted_failed_mono (verbose : bool) (out : result (list record)) :
  counted_failed false fields out = true ->
  counted_failed verbose fields out = true.
Proof. by destruct out as [[|r rs]|e]. Qed.

(** X18.  A verbose run and a quiet run of the same batch return the same
    result exactly when no sample of a returned list of records fails to be
    logged.  In general the images a quiet run counts as failed are among
    those a verbose run counts as failed, in the same order, and the records
    a verbose run keeps are among those a quiet run keeps. *)
Theorem process_images_verbose (cb cb' : bool) (image_files : list string)
    (w : W) :
  let outs := outcomes extractor image_files w in
  let loud := (process_images extractor fields true cb image_files w).1.1 in
  let quiet :=
    (process_images extractor fields false cb' image_files w).1.1 in
  (loud = quiet
   <-> Forall (fun out => match out with
                          | Ok records => sample_fails fields records = false
                          | Raise _ => True
                          end) outs)
  /\ failed_images quiet `sublist_of` failed_images loud
  /\ all_results loud `sublist_of` all_results quiet.
Proof.
  intros outs loud quiet.
  destruct (any_process_images_run true cb image_files w) as [Hl _].
  destruct (any_process_images_run false cb' image_files w) as [Hq _].
  fold outs in Hl, Hq. subst loud quiet. rewrite Hl, Hq.
  cbn [failed_images all_results].
  split; [|split].
  - split.
    + intros E. apply (f_equal failed_images) in E.
      cbn [failed_images] in E. symmetry in E.
      assert (Hlen : length image_files = length outs)
        by (symmetry; apply any_outcomes_length).
      apply names_where_eq in E;
        [|apply counted_failed_mono|done].
      apply Forall_impl with (1 := E). by intros [[|r rs]|e].
    + intros H.
      destruct (where_ext (counted_failed true fields)
                  (counted_failed false fields) image_files outs) as [-> ->];
        [|done].
      apply Forall_impl with (1 := H). by intros [[|r rs]|e].
  - apply names_where_mono, counted_failed_mono.
  - apply records_where_mono, counted_failed_mono.
Qed.

Lemma embed_lookup (r : Processor.record) (field : string) :
  default (JStr "") (embed r !! field) = JStr (default "" (r !! field)).
Proof. unfold embed. rewrite lookup_fmap. by destruct (r !! field). Qed.

Lemma str_items_strings (parts : list string) :
  forall i, str_items i (JStr <$> parts) = Ok parts.
Proof.
  induction parts as [|s parts IH]; intros i; [done|].
  cbn [fmap list_fmap str_items]. fold (@fmap list _ _ _ JStr).
  by rewrite IH.
Qed.

Lemma filter_truthy_strings (parts : list string) :
  List.filter truthy (JStr <$> parts)
  = JStr <$> List.filter Str.truthy parts.
Proof.
  induction parts as [|s parts IH]; [done|].
  cbn [fmap list_fmap List.filter truthy]. fold (@fmap list _ _ _ JStr).
  rewrite IH. by destruct (Str.truthy s).
Qed.

Lemma display_fields_embed (r : Processor.record) (l : list string) :
  (fun field => default (JStr "") (embed r !! field)) <$> l
  = JStr <$> ((fun field => default "" (r !! field)) <$> l).
Proof.
  induction l as [|field l IH]; [done|].
  cbn [fmap list_fmap]. f_equal; [apply embed_lookup|apply IH].
Qed.

Lemma sample_text_embed (r : Processor.record) :
  sample_text fields (embed r) = Ok (Processor.sample_text fields r).
Proof.
  unfold sample_text, Processor.sample_text, join.
  by rewrite display_fields_embed, filter_truthy_strings, str_items_strings.
Qed.

Lemma sample_lines_embed (records : list Processor.record) :
  forall j,
    sample_lines fields j (embed <$> records)
    = (Processor.sample_lines fields j records, Ok tt).
Proof.
  induction records as [|r rs IH]; intros j; [done|].
  cbn [fmap list_fmap sample_lines Processor.sample_lines].
  fold (@fmap list _ _ _ embed). by rewrite sample_text_embed, IH.
Qed.

Lemma log_sample_records_embed (records : list Processor.record) :
  log_sample_records fields (embed <$> records)
  = (Processor.log_sample_records fields records, Ok tt).
Proof.
  unfold log_sample_records, Processor.log_sample_records.
  rewrite <- fmap_take, sample_lines_embed. by rewrite length_fmap.
Qed.

End pipeline.

Section pipeline_typed.

Import Pipeline.

Context {W : Type}.
Variable extractor : string -> W -> W * result (list Processor.record).
Variable fields : list string.
Variables verbose cb : bool.

Lemma body_embed (total i : nat) (image_file : string)
    (st : @Processor.locals W) :
  body (embed_extractor extractor) fields verbose cb total i image_file
       (embed_locals st)
  = embed_locals
      (Processor.body extractor fields verbose cb total i image_file st).
Proof.
  unfold body, Processor.body, embed_extractor. cbn [embed_locals l_world].
  destruct (extractor image_file (Processor.l_world st)) as [w' out].
  destruct out as [[|r rs]|e]; cbn [embed_outcome fmap list_fmap]; [done| |done].
  destruct verbose.
  - pose proof (log_sample_records_embed fields (r :: rs)) as Hlog.
    cbn [fmap list_fmap] in Hlog. rewrite Hlog.
    unfold keep, embed_locals.
    cbn. rewrite fmap_app, length_fmap, <- !app_assoc. done.
  - unfold keep, embed_locals. cbn. by rewrite fmap_app, length_fmap, app_nil_r.
Qed.

Lemma loop_embed (total : nat) (image_files : list string) :
  forall (i : nat) (st : @Processor.locals W),
    loop (embed_extractor extractor) fields verbose cb total i image_files
         (embed_locals st)
    = embed_locals
        (Processor.loop extractor fields verbose cb total i image_files st).
Proof.
  induction image_files as [|f files IH]; intros i st; [done|].
  cbn [loop Processor.loop]. by rewrite body_embed, IH.
Qed.

(** X19.  On records whose values are all strings, as the annotations of
    [DataProcessor] have them, the processor does what its model on such
    records does: the same result, the same lines logged and calls of the
    callback, and the same calls to the extractor. *)
Theorem process_images_typed (image_files : list string) (w : W) :
  process_images (embed_extractor extractor) fields verbose cb image_files w
  = let '(r, evs, w') :=
      Processor.process_images extractor fields verbose cb image_files w in
    (embed_result r, evs, w').
Proof.
  unfold process_images, Processor.process_images.
  pose proof (loop_embed (length image_files) image_files 1
                {| Processor.l_all_results := [];
                   Processor.l_total_records := 0;
                   Processor.l_failed_images := [];
                   Processor.l_events := []; Processor.l_world := w |}) as H.
  unfold embed_locals in H at 1. cbn in H. rewrite H. done.
Qed.

End pipeline_typed.

(** ** The whole run *)

Section main_spec.

Import Main.

Variable worlds : nat -> Extractor.World.
Variable py_str : json -> string.










End main_spec.


(** ** Construction of the configuration *)

Section config_more.

(** X22.  [Config(...)] fails exactly when the key is rejected, with the
    error of [get_openai_api_key], and does not look at the folder.  A
    configuration that is built holds the accepted key with the default
    model, token limit and temperature, which the setters would accept, and
    a list of fields that is never empty: [None] and the empty list are
    replaced by the four default fields.  [validate] then passes unless
    nothing exists at the folder path; it accepts a path that is no
    directory. *)
Theorem config_init_spec (env : EnvConfig.environ)
    (images_folder output_file : string)
    (extract_fields : option (list string)) :
  match ConfigOps.init env images_folder output_file extract_fields with
  | Ok config =>
      EnvConfig.get_openai_api_key env
      = Ok (OpenAIConfig.api_key (Config.openai config))
      /\ Config.openai config
         = OpenAIConfig.init (OpenAIConfig.api_key (Config.openai config))
      /\ OpenAIConfigOps.valid (Config.openai config) = true
      /\ Config.images config = images_folder
      /\ Config.output_file config = output_file
      /\ Config.extract_fields config
         = (if bool_decide (extract_fields = None
                            \/ extract_fields = Some [])
            then Config.default_fields
            else default [] extract_fields)
      /\ (0 < length (Config.extract_fields config))%nat
      /\ (forall st,
            ConfigOps.validate st config
            = match st with
              | ImageFolderConfig.Missing =>
                  Raise (ImageFolderNotFoundError images_folder)
              | _ => Ok tt
              end)
  | Raise e => EnvConfig.get_openai_api_key env = Raise e
  end.
Proof.
  unfold ConfigOps.init.
  destruct (EnvConfig.get_openai_api_key env) as [key|e]; cbn [bind]; [|done].
  cbn [Config.openai Config.images Config.output_file Config.extract_fields
       OpenAIConfig.api_key OpenAIConfig.init].
  repeat split; try done.
  - destruct extract_fields as [[|f l]|]; cbn [default].
    + rewrite bool_decide_eq_true_2; [done|by right].
    + rewrite bool_decide_eq_false_2; [done|]. by intros [|].
    + rewrite bool_decide_eq_true_2; [done|by left].
  - destruct extract_fields as [[|f l]|]; simpl; lia.
  - by intros [| |entries].
Qed.

End config_more.

(** ** Names and extensions *)

Section names_more.

Import Str ImageFolderConfig.

Lemma split_slash_aux_plain_parts (cur s : string) :
  forallb (fun c => negb (Ascii.eqb c "/")) (list_ascii_of_string cur) = true ->
  Forall (fun part =>
            forallb (fun c => negb (Ascii.eqb c "/"))
                    (list_ascii_of_string part) = true)
         (split_slash_aux cur s).
Proof.
  assert (Hrev : forall a b,
    forallb (fun c => negb (Ascii.eqb c "/")) (list_ascii_of_string a) = true ->
    forallb (fun c => negb (Ascii.eqb c "/")) (list_ascii_of_string b) = true ->
    forallb (fun c => negb (Ascii.eqb c "/"))
            (list_ascii_of_string (rev_onto a b)) = true).
  { induction a as [|c a IH]; intros b Ha Hb; [done|].
    simpl in Ha. apply andb_true_iff in Ha as [Hc Ha].
    cbn [rev_onto]. apply IH; [done|]. simpl. by rewrite Hc, Hb. }
  revert cur. induction s as [|c s IH]; intros cur Hcur;
    cbn [split_slash_aux].
  - constructor; [|constructor]. by apply Hrev.
  - destruct (Ascii.eqb c "/") eqn:E.
    + constructor; [by apply Hrev|]. by apply IH.
    + apply IH. simpl. by rewrite E, Hcur.
Qed.

Lemma last_Forall {A} (P : A -> Prop) (l : list A) (d : A) :
  Forall P l -> P d -> P (List.last l d).
Proof.
  induction 1 as [|x l Hx Hl IH]; intros Hd; [done|].
  destruct l as [|y l]; [done|]. by apply IH.
Qed.

Lemma Forall_filter_list {A} (P : A -> Prop) (f : A -> bool) (l : list A) :
  Forall P l -> Forall P (List.filter f l).
Proof.
  induction 1 as [|x l Hx _ IH]; [constructor|]. simpl.
  destruct (f x); [by constructor|done].
Qed.

Lemma last_Forall_cons {A} (P : A -> Prop) (l : list A) (d : A) :
  Forall P l -> l <> [] -> P (List.last l d).
Proof.
  induction 1 as [|x l Hx Hl IH]; intros Hne; [done|].
  destruct l as [|y l]; [done|]. by apply IH.
Qed.

Lemma filter_Forall_true {A} (f : A -> bool) (l : list A) :
  Forall (fun x => f x = true) (List.filter f l).
Proof.
  induction l as [|x l IH]; [constructor|]. simpl.
  destruct (f x) eqn:E; [by constructor|done].
Qed.

(** X23.  The base name of a path is a single component: it holds no slash
    and is not the single dot, it is empty only when the path has no
    component at all, and taking the base name of a base name changes
    nothing.  So [failed_images] and the [filename] of a record never hold a
    directory. *)
Theorem name_component (p : string) :
  forallb (fun c => negb (Ascii.eqb c "/"))
          (list_ascii_of_string (PathLib.name p)) = true
  /\ (PathLib.name p = "" <-> PathLib.tail p = [])
  /\ (PathLib.name p = "" \/ entry_name (PathLib.name p) = true)
  /\ PathLib.name (PathLib.name p) = PathLib.name p.
Proof.
  assert (Hslash : forallb (fun c => negb (Ascii.eqb c "/"))
                     (list_ascii_of_string (PathLib.name p)) = true).
  { unfold PathLib.name, PathLib.tail.
    apply (last_Forall (fun part => forallb _ (list_ascii_of_string part)
                                    = true)); [|done].
    apply Forall_filter_list. by apply split_slash_aux_plain_parts. }
  assert (Hkeep : PathLib.tail p <> [] ->
            negb (String.eqb (PathLib.name p) "")
            && negb (String.eqb (PathLib.name p) ".") = true).
  { unfold PathLib.name, PathLib.tail. intros Hne.
    by apply (last_Forall_cons
                (fun c => negb (String.eqb c "") && negb (String.eqb c ".")
                          = true));
      [apply filter_Forall_true|]. }
  split; [done|].
  destruct (PathLib.tail p) as [|c cs] eqn:Et.
  - assert (Hn : PathLib.name p = "") by (unfold PathLib.name; by rewrite Et).
    rewrite Hn. split; [done|]. split; [by left|done].
  - specialize (Hkeep ltac:(done)).
    apply andb_true_iff in Hkeep as [H1 H2].
    assert (He : entry_name (PathLib.name p) = true).
    { unfold entry_name. by rewrite H1, H2, Hslash. }
    split; [|split; [by right|by apply name_plain]].
    split; [|done]. intros Hn. rewrite Hn in H1. done.
Qed.

End names_more.

(** ** Which names are images *)

Section image_names.

Import Str ImageFolderConfig.







End image_names.

(** ** What the extractor looks at *)

Section extractor_frame.

Import Str Extractor.

(** X25.  [extract_all_info] looks at the world in three places only: the
    bytes of the image file, the answer of the API to the one request built
    from the configuration and these bytes, and the parse of the cleaned
    text of the first choice.  Two worlds that agree there give the same
    result; in particular the other choices of a response are ignored. *)
Theorem extract_all_info_frame (w w' : World) (cfg : Config.t)
    (image_path : string) :
  read_bytes w image_path = read_bytes w' image_path ->
  (forall data, read_bytes w image_path = Returned data ->
     match create w (request cfg (ImageUtils.b64encode data)),
           create w' (request cfg (ImageUtils.b64encode data)) with
     | Returned r, Returned r' => first_content r = first_content r'
     | Failed cls msg, Failed cls' msg' => cls = cls' /\ msg = msg'
     | _, _ => False
     end) ->
  (forall text, cleaned_text w cfg image_path = Ok text ->
     json_loads w text = json_loads w' text) ->
  extract_all_info w cfg image_path = extract_all_info w' cfg image_path.
Proof.
  intros Hread Hcreate Hloads.
  assert (Hclean : cleaned_text w cfg image_path
                   = cleaned_text w' cfg image_path).
  { unfold cleaned_text, encode_image. rewrite <- Hread.
    destruct (read_bytes w image_path) as [data|cls msg]; cbn [call bind];
      [|done].
    specialize (Hcreate data eq_refl).
    destruct (create w (request cfg (ImageUtils.b64encode data)))
      as [r|cls msg],
      (create w' (request cfg (ImageUtils.b64encode data)))
      as [r'|cls' msg']; cbn [call bind]; try done.
    - by rewrite Hcreate.
    - by destruct Hcreate as [-> ->]. }
  unfold extract_all_info, try_body, loads. rewrite <- Hclean.
  destruct (cleaned_text w cfg image_path) as [text|e] eqn:E; cbn [bind];
    [|done].
  by rewrite (Hloads text eq_refl).
Qed.

(** The API adds a second choice to its answer. *)
Lemma extract_all_info_frame_example :
  extract_all_info (respond demo_world array_example []) demo_config "a.png"
  = extract_all_info
      (respond demo_world array_example
               [ {| message := {| content := Some "[]" |} |} ])
      demo_config "a.png".
Proof.
  apply (extract_all_info_frame
           (respond demo_world array_example [])
           (respond demo_world array_example
                    [ {| message := {| content := Some "[]" |} |} ])
           demo_config "a.png"); [reflexivity| |reflexivity].
  intros data _. reflexivity.
Defined.

End extractor_frame.
